(** * Movies service: look-aside caching over a document store

    A shallow embedding of the three variants of the Express service

    - [Server]       src/server.js          no cache at all
    - [Part000]      src/unnamed/part_000   list cache under the key movies
    - [RedisServer]  src/redisServer.js     list cache and per-item cache,
                                            simplified projection

    Every route handler is a computation in the monad [M], which threads the
    [world] (the movies collection, the Redis keyspace and the trace of
    external calls and console lines) and carries JavaScript exceptions.
    A request runs to completion, callbacks included, before the next one
    starts: commands of one Redis connection are served in the order they
    were issued, and the development does not speak about interleavings of
    concurrent requests.

    The MongoDB driver, the Redis client and the JSON built-ins are not part
    of the repository.  What the handlers need of them is collected in the
    class [Platform]; failures of the two clients are chosen by an oracle
    [faults], one decision per external call. *)

From stdpp Require Import gmap strings list fin_maps.
From Stdlib Require Import ZArith Ascii DecimalPos DecimalZ.

Local Open Scope string_scope.
Local Open Scope list_scope.
Set Warnings "-register-all".

(** ** JSON values *)

Inductive json : Type :=
| JNull
| JBool (b : bool)
| JNum (n : Z)
| JStr (s : string)
| JArr (items : list json)
| JObj (fields : list (string * json)).

Fixpoint json_eqb (a b : json) {struct a} : bool :=
  match a, b with
  | JNull, JNull => true
  | JBool x, JBool y => Bool.eqb x y
  | JNum x, JNum y => Z.eqb x y
  | JStr x, JStr y => String.eqb x y
  | JArr xs, JArr ys =>
      (fix all2 (xs ys : list json) {struct xs} : bool :=
         match xs, ys with
         | [], [] => true
         | x :: xs', y :: ys' => json_eqb x y && all2 xs' ys'
         | _, _ => false
         end) xs ys
  | JObj xs, JObj ys =>
      (fix all2 (xs ys : list (string * json)) {struct xs} : bool :=
         match xs, ys with
         | [], [] => true
         | (k, x) :: xs', (l, y) :: ys' =>
             String.eqb k l && json_eqb x y && all2 xs' ys'
         | _, _ => false
         end) xs ys
  | _, _ => false
  end.

(** [o.k] on an object: the first binding of [k], [None] for undefined. *)
Fixpoint get_prop (k : string) (fs : list (string * json)) : option json :=
  match fs with
  | [] => None
  | (k', v) :: fs' => if String.eqb k k' then Some v else get_prop k fs'
  end.

(** [$set: { k: v }]: overwrite the binding in place, or append it. *)
Fixpoint set_prop (k : string) (v : json) (fs : list (string * json))
  : list (string * json) :=
  match fs with
  | [] => [(k, v)]
  | (k', v') :: fs' =>
      if String.eqb k k' then (k', v) :: fs' else (k', v') :: set_prop k v fs'
  end.

Definition json_field (k : string) (j : json) : option json :=
  match j with
  | JObj fs => get_prop k fs
  | _ => None
  end.

(** A property whose value is undefined is left out by JSON.stringify. *)
Definition opt_field (k : string) (o : option json) : list (string * json) :=
  match o with
  | Some v => [(k, v)]
  | None => []
  end.

(** ** JavaScript errors *)

Record jserror : Type := JsError {
  ename : string;
  message : string;
  estatus : option nat
}.

(** Error.prototype.toString, as used by the template literals [${err}]. *)
Definition error_toString (e : jserror) : string :=
  if String.eqb (ename e) EmptyString then message e
  else if String.eqb (message e) EmptyString then ename e
  else ename e +:+ ": " +:+ message e.

(** ** The platform: identifier format and JSON text *)

Class Platform : Type := {
  oid : Type;
  oid_eq_dec :: EqDecision oid;
  (** [new ObjectId(s)]; [None] when the constructor throws. *)
  ObjectId : string -> option oid;
  (** the error thrown by the constructor *)
  BSONError : jserror;
  (** [ObjectId.prototype.toJSON] *)
  toHexString : oid -> string;
  JSON_stringify : json -> string;
  (** [None] when JSON.parse throws; the error is [SyntaxError] *)
  JSON_parse : string -> option json;
  SyntaxError : jserror
}.

(** JSON.parse is a left inverse of JSON.stringify. *)
Definition codec_roundtrip `{Platform} : Prop :=
  forall v : json, JSON_parse (JSON_stringify v) = Some v.

(** JSON.stringify never yields the empty string (which is falsy). *)
Definition codec_nonempty `{Platform} : Prop :=
  forall v : json, JSON_stringify v <> EmptyString.

Section Model.
Context `{Platform}.

(** ** Documents *)

Record movie : Type := Movie {
  _id : oid;
  props : list (string * json)
}.

(** What [res.json(doc)] sends for a stored document. *)
Definition movie_json (m : movie) : json :=
  JObj (("_id", JStr (toHexString (_id m))) :: props m).

Record simple : Type := Simple {
  s_id : oid;
  s_name : option json;
  s_title : option json
}.

(** redisServer.js, lines 70-76. *)
Definition simplifyMovie (m : movie) : simple :=
  {| s_id := _id m;
     s_name := get_prop "name" (props m);
     s_title := get_prop "title" (props m) |}.

Definition simple_json (s : simple) : json :=
  JObj (("id", JStr (toHexString (s_id s)))
          :: opt_field "name" (s_name s) ++ opt_field "title" (s_title s)).

(** Result summaries of the driver. *)
Record UpdateResult : Type := {
  matchedCount : nat;
  modifiedCount : nat
}.

Record DeleteResult : Type := {
  deletedCount : nat
}.

Definition UpdateResult_json (r : UpdateResult) : json :=
  JObj [("acknowledged", JBool true);
        ("modifiedCount", JNum (Z.of_nat (modifiedCount r)));
        ("upsertedId", JNull);
        ("upsertedCount", JNum 0);
        ("matchedCount", JNum (Z.of_nat (matchedCount r)))].

Definition DeleteResult_json (r : DeleteResult) : json :=
  JObj [("acknowledged", JBool true);
        ("deletedCount", JNum (Z.of_nat (deletedCount r)))].

(** ** The collection *)

Definition has_id (i : oid) (m : movie) : bool := bool_decide (_id m = i).

Definition findOne (i : oid) (c : list movie) : option movie :=
  List.find (has_id i) c.

(** [find({}).limit(n).toArray()] *)
Definition find_limit (n : nat) (c : list movie) : list movie := take n c.

Definition set_title (t : json) (m : movie) : movie :=
  {| _id := _id m; props := set_prop "title" t (props m) |}.

Definition title_is (t : json) (m : movie) : bool :=
  match get_prop "title" (props m) with
  | Some t' => json_eqb t' t
  | None => false
  end.

(** [updateOne({_id: i}, {$set: {title: t}})]: the first match only. *)
Fixpoint updateOne (i : oid) (t : json) (c : list movie)
  : list movie * UpdateResult :=
  match c with
  | [] => ([], {| matchedCount := 0; modifiedCount := 0 |})
  | m :: c' =>
      if has_id i m then
        (set_title t m :: c',
         {| matchedCount := 1;
            modifiedCount := if title_is t m then 0 else 1 |})
      else
        let '(c'', r) := updateOne i t c' in (m :: c'', r)
  end.

(** [deleteOne({_id: i})]: the first match only. *)
Fixpoint deleteOne (i : oid) (c : list movie) : list movie * DeleteResult :=
  match c with
  | [] => ([], {| deletedCount := 0 |})
  | m :: c' =>
      if has_id i m then (c', {| deletedCount := 1 |})
      else let '(c'', r) := deleteOne i c' in (m :: c'', r)
  end.

(** The unique index on [_id]. *)
Definition unique_ids (c : list movie) : Prop := NoDup (_id <$> c).

(** ** External calls, console lines, and faults *)

Inductive event : Type :=
| MongoFind (limit : nat)
| MongoFindOne (i : oid)
| MongoUpdateOne (i : oid) (t : json)
| MongoDeleteOne (i : oid)
| RedisGet (k : string)
| RedisSet (k v : string)
| RedisDel (k : string)
| ConsoleLog (line : string)
| ConsoleError (line : string).

Definition is_mongo (e : event) : bool :=
  match e with
  | MongoFind _ | MongoFindOne _ | MongoUpdateOne _ _ | MongoDeleteOne _ => true
  | _ => false
  end.

Definition is_redis_set (e : event) : bool :=
  match e with
  | RedisSet _ _ => true
  | _ => false
  end.

(** Which external calls of a request fail, and with which error. *)
Definition faults : Type := event -> option jserror.

Definition no_faults : faults := fun _ => None.

Record world : Type := World {
  db : list movie;
  redis : gmap string string;
  trace : list event
}.

Definition emit (e : event) (w : world) : world :=
  {| db := db w; redis := redis w; trace := trace w ++ [e] |}.

Definition with_db (c : list movie) (w : world) : world :=
  {| db := c; redis := redis w; trace := trace w |}.

Definition with_redis (r : gmap string string) (w : world) : world :=
  {| db := db w; redis := r; trace := trace w |}.

(** ** The handler monad *)

Definition M (A : Type) : Type := faults -> world -> (jserror + A) * world.

Definition ret {A} (a : A) : M A := fun _ w => (inr a, w).

Definition throw {A} (e : jserror) : M A := fun _ w => (inl e, w).

Definition bind {A B} (m : M A) (k : A -> M B) : M B :=
  fun flt w =>
    match m flt w with
    | (inr a, w') => k a flt w'
    | (inl e, w') => (inl e, w')
    end.

(** ** Responses *)

Inductive body : Type :=
| BJson (j : json)
| BText (s : string)
| BView (name : string).

Inductive outcome : Type :=
| Response (status : nat) (b : body)
(** [next(err)]: the request is handed to the error middleware *)
| Next (e : jserror)
(** an exception escaped an asynchronous callback: nothing is sent *)
| Unhandled (e : jserror).

End Model.

Arguments movie {_}.
Arguments simple {_}.
Arguments event {_}.
Arguments world {_}.
Arguments faults {_}.
Arguments M {_} A.

(** The monad is used through the notations [x ← m; k] and [m;; k]. *)
#[global] Instance M_ret `{Platform} : MRet M := fun A a => ret a.
#[global] Instance M_bind `{Platform} : MBind M := fun A B k m => bind m k.

(** ** The two clients and the runtime *)

Section Clients.
Context `{Platform}.

Definition console_log (line : string) : M unit :=
  fun _ w => (inr tt, emit (ConsoleLog line) w).

Definition console_error (line : string) : M unit :=
  fun _ w => (inr tt, emit (ConsoleError line) w).

(** [new ObjectId(s)] *)
Definition new_ObjectId (s : string) : M oid :=
  match ObjectId s with
  | Some i => ret i
  | None => throw BSONError
  end.

(** [JSON.parse(s)] *)
Definition parse (s : string) : M json :=
  match JSON_parse s with
  | Some v => ret v
  | None => throw SyntaxError
  end.

(** A store call: recorded, then it either throws or answers from, and
    acts on, the collection. *)
Definition mongo {A} (e : event) (f : list movie -> list movie * A) : M A :=
  fun flt w =>
    let w := emit e w in
    match flt e with
    | Some err => (inl err, w)
    | None => let '(c, a) := f (db w) in (inr a, with_db c w)
    end.

Definition collection_find (n : nat) : M (list movie) :=
  mongo (MongoFind n) (fun c => (c, find_limit n c)).

Definition collection_findOne (i : oid) : M (option movie) :=
  mongo (MongoFindOne i) (fun c => (c, findOne i c)).

Definition collection_updateOne (i : oid) (t : json) : M UpdateResult :=
  mongo (MongoUpdateOne i t) (updateOne i t).

Definition collection_deleteOne (i : oid) : M DeleteResult :=
  mongo (MongoDeleteOne i) (deleteOne i).

(** The Redis commands never throw: the error, if any, is the first
    argument of the callback.  A failed command leaves the keyspace as it
    was. *)
Definition redisClient_get (k : string) : M (option jserror * option string) :=
  fun flt w =>
    let w := emit (RedisGet k) w in
    match flt (RedisGet k) with
    | Some err => (inr (Some err, None), w)
    | None => (inr (None, redis w !! k), w)
    end.

Definition redisClient_set (k v : string) : M (option jserror) :=
  fun flt w =>
    let w := emit (RedisSet k v) w in
    match flt (RedisSet k v) with
    | Some err => (inr (Some err), w)
    | None => (inr None, with_redis (<[k := v]> (redis w)) w)
    end.

Definition redisClient_del (k : string) : M (option jserror) :=
  fun flt w =>
    let w := emit (RedisDel k) w in
    match flt (RedisDel k) with
    | Some err => (inr (Some err), w)
    | None => (inr None, with_redis (delete k (redis w)) w)
    end.

(** [if (reply)]: null and the empty string are falsy. *)
Definition truthy (reply : option string) : option string :=
  match reply with
  | Some s => if String.eqb s EmptyString then None else Some s
  | None => None
  end.

(** The callback every [set] and [del] of the sources is given. *)
Definition report (err : option jserror) (failed done : string) : M unit :=
  match err with
  | Some e => console_error (failed +:+ error_toString e)
  | None => console_log done
  end.

(** [{ error: e.message }] *)
Definition error_body (e : jserror) : body :=
  BJson (JObj [("error", JStr (message e))]).

(** [try { ... } catch (e) { res.status(500).json({ error: e.message }) }] *)
Definition try_catch (m : M outcome) : M outcome :=
  fun flt w =>
    match m flt w with
    | (inl e, w') => (inr (Response 500 (error_body e)), w')
    | r => r
    end.

(** The body of an [async (err, reply) => { ... }] callback: what it
    throws rejects a promise nobody awaits. *)
Definition async_callback (m : M outcome) : M outcome :=
  fun flt w =>
    match m flt w with
    | (inl e, w') => (inr (Unhandled e), w')
    | r => r
    end.

Definition handler : Type := faults -> world -> outcome * world.

Definition route (m : M outcome) : handler :=
  fun flt w =>
    match m flt w with
    | (inr o, w') => (o, w')
    | (inl e, w') => (Unhandled e, w')
    end.

(** A missing [req.body.title] is undefined; the driver writes null. *)
Definition bson_value (v : option json) : json := default JNull v.

(** The error middleware at the end of each file. *)
Definition error_handler (e : jserror) : nat * body :=
  (match estatus e with
   | Some (S n) => S n
   | _ => 500
   end, BView "error").

(** What the client receives. *)
Definition served (o : outcome) : option (nat * body) :=
  match o with
  | Response st b => Some (st, b)
  | Next e => Some (error_handler e)
  | Unhandled _ => None
  end.

(** Reading a property of null. *)
Definition TypeError : jserror :=
  {| ename := "TypeError";
     message := "Cannot read properties of null (reading '_id')";
     estatus := None |}.

End Clients.

(** The requests of the API. *)
Inductive request : Type :=
| GetMovies
| GetMovie (id : string)
| PatchMovie (id : string) (title : option json)
| DeleteMovie (id : string).

(** ** src/server.js *)

Module Server.
Section Handlers.
Context `{Platform}.

(** lines 52-60 *)
Definition get_movies : handler :=
  route (try_catch (
    results ← collection_find 10;
    ret (Response 200 (BJson (JArr (movie_json <$> results)))))).

(** lines 62-75 *)
Definition get_movie (id : string) : handler :=
  route (try_catch (
    i ← new_ObjectId id;
    result ← collection_findOne i;
    match result with
    | None => ret (Response 404 (BText "Not found"))
    | Some m => ret (Response 200 (BJson (movie_json m)))
    end)).

(** lines 77-89 *)
Definition patch_movie (id : string) (title : option json) : handler :=
  route (try_catch (
    i ← new_ObjectId id;
    result ← collection_updateOne i (bson_value title);
    ret (Response 200 (BJson (UpdateResult_json result))))).

(** lines 91-100 *)
Definition delete_movie (id : string) : handler :=
  route (try_catch (
    i ← new_ObjectId id;
    result ← collection_deleteOne i;
    ret (Response 200 (BJson (DeleteResult_json result))))).

Definition handle (r : request) : handler :=
  match r with
  | GetMovies => get_movies
  | GetMovie id => get_movie id
  | PatchMovie id title => patch_movie id title
  | DeleteMovie id => delete_movie id
  end.

End Handlers.
End Server.

(** ** src/unnamed/part_000: the list is cached, single movies are not *)

Module Part000.
Section Handlers.
Context `{Platform}.

(** lines 70-102 *)
Definition get_movies : handler :=
  route (try_catch (
    '(err, cachedMovies) ← redisClient_get "movies";
    async_callback (
      match err with
      | Some err =>
          console_error ("Error fetching movies from Redis: " +:+ error_toString err);;
          mret (Next err)
      | None =>
          match truthy cachedMovies with
          | Some cachedMovies =>
              console_log "Fetching movies from Redis cache";;
              v ← parse cachedMovies;
              mret (Response 200 (BJson v))
          | None =>
              console_log "No movies found in Redis cache, fetching from MongoDB";;
              results ← collection_find 10;
              let sent := JArr (movie_json <$> results) in
              err ← redisClient_set "movies" (JSON_stringify sent);
              report err "Error caching movies in Redis: " "Cached movies in Redis";;
              mret (Response 200 (BJson sent))
          end
      end))).

(** lines 105-118 *)
Definition get_movie (id : string) : handler :=
  route (try_catch (
    i ← new_ObjectId id;
    result ← collection_findOne i;
    match result with
    | None => mret (Response 404 (BText "Not found"))
    | Some m => mret (Response 200 (BJson (movie_json m)))
    end)).

(** lines 121-143 *)
Definition patch_movie (id : string) (title : option json) : handler :=
  route (try_catch (
    i ← new_ObjectId id;
    result ← collection_updateOne i (bson_value title);
    err ← redisClient_del "movies";
    report err "Error invalidating Redis cache: "
               "Invalidated Redis cache after update";;
    mret (Response 200 (BJson (UpdateResult_json result))))).

(** lines 146-165 *)
Definition delete_movie (id : string) : handler :=
  route (try_catch (
    i ← new_ObjectId id;
    result ← collection_deleteOne i;
    err ← redisClient_del "movies";
    report err "Error invalidating Redis cache: "
               "Invalidated Redis cache after delete";;
    mret (Response 200 (BJson (DeleteResult_json result))))).

Definition handle (r : request) : handler :=
  match r with
  | GetMovies => get_movies
  | GetMovie id => get_movie id
  | PatchMovie id title => patch_movie id title
  | DeleteMovie id => delete_movie id
  end.

End Handlers.
End Part000.

(** ** src/redisServer.js: list and per-item cache of the projection *)

Module RedisServer.
Section Handlers.
Context `{Platform}.

(** The template literal [`movie:${movieId}`]. *)
Definition movie_key (movieId : string) : string := "movie:" +:+ movieId.

(** lines 79-110 *)
Definition get_movies : handler :=
  route (try_catch (
    '(err, cachedMovies) ← redisClient_get "movies";
    async_callback (
      match err with
      | Some err =>
          console_error ("Error fetching movies from Redis: " +:+ error_toString err);;
          mret (Next err)
      | None =>
          match truthy cachedMovies with
          | Some cachedMovies =>
              console_log "Fetching movies from Redis cache";;
              v ← parse cachedMovies;
              mret (Response 200 (BJson v))
          | None =>
              console_log "No movies found in Redis cache, fetching from MongoDB";;
              results ← collection_find 10;
              let simplifiedResults := simplifyMovie <$> results in
              let sent := JArr (simple_json <$> simplifiedResults) in
              err ← redisClient_set "movies" (JSON_stringify sent);
              report err "Error caching movies in Redis: " "Cached movies in Redis";;
              mret (Response 200 (BJson sent))
          end
      end))).

(** lines 113-150 *)
Definition get_movie (movieId : string) : handler :=
  route (try_catch (
    '(err, cachedMovie) ← redisClient_get (movie_key movieId);
    async_callback (
      match err with
      | Some err =>
          console_error ("Error fetching movie from Redis: " +:+ error_toString err);;
          mret (Next err)
      | None =>
          match truthy cachedMovie with
          | Some cachedMovie =>
              console_log "Fetching movie from Redis cache";;
              v ← parse cachedMovie;
              mret (Response 200 (BJson v))
          | None =>
              console_log "No movie found in Redis cache, fetching from MongoDB";;
              i ← new_ObjectId movieId;
              result ← collection_findOne i;
              match result with
              | None => mret (Response 404 (BText "Not found"))
              | Some m =>
                  let simplifiedResult := simplifyMovie m in
                  let sent := simple_json simplifiedResult in
                  err ← redisClient_set (movie_key movieId) (JSON_stringify sent);
                  report err "Error caching movie in Redis: " "Cached movie in Redis";;
                  mret (Response 200 (BJson sent))
              end
          end
      end))).

(** lines 153-189 *)
Definition patch_movie (movieId : string) (title : option json) : handler :=
  route (try_catch (
    i ← new_ObjectId movieId;
    result ← collection_updateOne i (bson_value title);
    (if (0 <? matchedCount result)%nat then
       updatedMovie ← collection_findOne i;
       simplifiedMovie ←
         match updatedMovie with
         | Some m => mret (simplifyMovie m)
         | None => throw TypeError
         end;
       err ← redisClient_set (movie_key movieId)
               (JSON_stringify (simple_json simplifiedMovie));
       report err "Error updating movie in Redis: " "Updated movie in Redis";;
       err ← redisClient_del "movies";
       report err "Error invalidating Redis cache: "
                  "Invalidated Redis cache after update"
     else mret tt);;
    mret (Response 200 (BJson (UpdateResult_json result))))).

(** lines 192-220 *)
Definition delete_movie (movieId : string) : handler :=
  route (try_catch (
    i ← new_ObjectId movieId;
    result ← collection_deleteOne i;
    err ← redisClient_del (movie_key movieId);
    report err "Error invalidating movie in Redis: "
               "Invalidated movie in Redis after delete";;
    err ← redisClient_del "movies";
    report err "Error invalidating Redis cache: "
               "Invalidated Redis cache after delete";;
    mret (Response 200 (BJson (DeleteResult_json result))))).

Definition handle (r : request) : handler :=
  match r with
  | GetMovies => get_movies
  | GetMovie id => get_movie id
  | PatchMovie id title => patch_movie id title
  | DeleteMovie id => delete_movie id
  end.

End Handlers.
End RedisServer.


(** ** The last two middlewares of each file *)

(** The catch-all after the router:
    [const error = new Error("Not Found"); error.status = 404; next(error)]. *)
Definition NotFound : jserror :=
  {| ename := "Error"; message := "Not Found"; estatus := Some 404 |}.

(** What the error handler hands to the view: the status, the name of the
    view, and [res.locals]. *)
Record page : Type := Page {
  p_status : nat;
  p_view : string;
  locals_message : string;
  (** [None] stands for the empty object *)
  locals_error : option jserror
}.

(** The error handler; [env] is [req.app.get('env')]. *)
Definition render_error (env : string) (err : jserror) : page :=
  {| p_status := match estatus err with
                 | Some (S n) => S n
                 | _ => 500
                 end;
     p_view := "error";
     locals_message := message err;
     locals_error := if String.eqb env "development" then Some err else None |}.

(** * Vocabulary of the properties *)

Section Vocabulary.
Context `{Platform}.
Import RedisServer.

(** The three variants, by their dispatch on the request. *)
Definition variants : list (request -> handler) :=
  [Server.handle; Part000.handle; RedisServer.handle].

(** Requests served one after the other, each under its own faults. *)
Definition run (handle : request -> handler)
    (rs : list (faults * request)) (w : world) : world :=
  foldl (fun w '(flt, r) => (handle r flt w).2) w rs.

(** The events a handler added to the trace. *)
Definition since (w w' : world) : list event :=
  drop (length (trace w)) (trace w').

(** The world after the events [es], with the store and the cache as they
    were. *)
Definition logged (es : list event) (w : world) : world :=
  {| db := db w; redis := redis w; trace := trace w ++ es |}.

(** The console line of a [set] or [del] callback. *)
Definition report_line (err : option jserror) (failed done : string) : event :=
  match err with
  | Some e => ConsoleError (failed +:+ error_toString e)
  | None => ConsoleLog done
  end.

(** A command that is applied unless it failed. *)
Definition unless_failed {A} (failed : bool) (f : A -> A) (a : A) : A :=
  if failed then a else f a.

(** Whether the oracle makes the call [e] fail. *)
Definition fails (flt : faults) (e : event) : bool :=
  match flt e with
  | Some _ => true
  | None => false
  end.

(** A list answer: 200 with an array of at most ten entries. *)
Definition short_list (o : outcome) : Prop :=
  exists l, o = Response 200 (BJson (JArr l)) /\ length l <= 10.

(** A response in the 4xx range. *)
Definition client_error (o : outcome) : Prop :=
  exists st b, o = Response st b /\ 400 <= st < 500.

(** The handlers that build the identifier inside their [try] block. *)
Definition guarded_handlers (id : string) (title : option json) : list handler :=
  [Server.get_movie id; Server.patch_movie id title; Server.delete_movie id;
   Part000.get_movie id; Part000.patch_movie id title; Part000.delete_movie id;
   RedisServer.patch_movie id title; RedisServer.delete_movie id].

(** A cache hit of the list handler [get_movies] on the text [s], which
    parses to [v]. *)
Definition list_hit (get_movies : handler) (flt : faults) (w : world)
    (s : string) (v : json) : Prop :=
  let w' :=
    logged [RedisGet "movies"; ConsoleLog "Fetching movies from Redis cache"] w in
  get_movies flt w = (Response 200 (BJson v), w')
  /\ filter is_mongo (since w w') = []
  /\ (codec_roundtrip -> forall v0, s = JSON_stringify v0 -> JSON_stringify v = s).

(** A cache miss of the list handler [get_movies], which sends each
    document through [view]. *)
Definition list_miss (get_movies : handler) (view : movie -> json)
    (flt : faults) (w : world) : Prop :=
  let results := find_limit 10 (db w) in
  let sent := JArr (view <$> results) in
  let text := JSON_stringify sent in
  exists w',
    get_movies flt w = (Response 200 (BJson sent), w')
    /\ length results <= 10
    /\ since w w' =
         [RedisGet "movies";
          ConsoleLog "No movies found in Redis cache, fetching from MongoDB";
          MongoFind 10;
          RedisSet "movies" text;
          report_line (flt (RedisSet "movies" text))
            "Error caching movies in Redis: " "Cached movies in Redis"]
    /\ db w' = db w
    /\ redis w' = match flt (RedisSet "movies" text) with
                  | None => <["movies" := text]> (redis w)
                  | Some _ => redis w
                  end.

(** A cache miss of [RedisServer.get_movie] for a movie [m] that the store
    holds. *)
Definition item_miss (movieId : string) (i : oid) (m : movie)
    (flt : faults) (w : world) : Prop :=
  let sent := simple_json (simplifyMovie m) in
  let text := JSON_stringify sent in
  exists w',
    get_movie movieId flt w = (Response 200 (BJson sent), w')
    /\ since w w' =
         [RedisGet (movie_key movieId);
          ConsoleLog "No movie found in Redis cache, fetching from MongoDB";
          MongoFindOne i;
          RedisSet (movie_key movieId) text;
          report_line (flt (RedisSet (movie_key movieId) text))
            "Error caching movie in Redis: " "Cached movie in Redis"]
    /\ db w' = db w
    /\ redis w' = match flt (RedisSet (movie_key movieId) text) with
                  | None => <[movie_key movieId := text]> (redis w)
                  | Some _ => redis w
                  end.

(** The list handlers leave the store alone, and write at most the
    serialized first ten documents under the list key. *)
Definition list_effect (get_movies : handler) (view : movie -> json)
    (flt : faults) (w : world) : Prop :=
  let w' := (get_movies flt w).2 in
  db w' = db w
  /\ (redis w' = redis w
      \/ redis w' = <["movies" :=
                       JSON_stringify (JArr (view <$> find_limit 10 (db w)))]>
                     (redis w)).

(** The list key, when set, holds a serialized array of at most ten
    entries. *)
Definition list_ok (r : gmap string string) : Prop :=
  forall s, r !! "movies" = Some s ->
    exists l, s = JSON_stringify (JArr l) /\ length l <= 10.

(** Both cache entries that refer to the movie behind [movieId] are
    deleted. *)
Definition invalidated (movieId : string) (w : world) : Prop :=
  redis w !! movie_key movieId = None /\ redis w !! "movies" = None.

(** The movie [i] is neither in the store nor cached under [movieId]. *)
Definition gone (movieId : string) (i : oid) (w : world) : Prop :=
  findOne i (db w) = None /\ redis w !! movie_key movieId = None.

(** The store holds [m] under [i], and the per-item entry of [movieId], if
    any, is the serialized projection of [m]. *)
Definition fresh (movieId : string) (i : oid) (m : movie) (w : world) : Prop :=
  findOne i (db w) = Some m
  /\ (redis w !! movie_key movieId = None
      \/ redis w !! movie_key movieId
         = Some (JSON_stringify (simple_json (simplifyMovie m)))).

(** The request updates or deletes the movie [i]. *)
Definition mutates (i : oid) (r : request) : Prop :=
  match r with
  | PatchMovie id _ | DeleteMovie id => ObjectId id = Some i
  | _ => False
  end.

(** Read-through caching of one movie: the first read answers with [view m]
    and issues exactly one cache [set], of the text of [view m]; the second
    read gives the same answer and does not call the store. *)
Definition read_through (get_movie : string -> handler) (view : movie -> json)
    (id : string) (m : movie) (w : world) : Prop :=
  let r1 := get_movie id no_faults w in
  let r2 := get_movie id no_faults r1.2 in
  r1.1 = Response 200 (BJson (view m))
  /\ (exists k, filter is_redis_set (since w r1.2)
                = [RedisSet k (JSON_stringify (view m))])
  /\ r2.1 = r1.1
  /\ filter is_mongo (since r1.2 r2.2) = [].

(** No read-through at all: the cache is neither read nor written, and
    every read calls the store. *)
Definition always_from_store (get_movie : string -> handler)
    (id : string) (i : oid) (flt : faults) (w : world) : Prop :=
  let w' := (get_movie id flt w).2 in
  redis w' = redis w /\ since w w' = [MongoFindOne i].

(** The read that follows an update serves the new title.  The update is
    sent under [id_p] and the read under [id_g]. *)
Definition title_after_update (handle : request -> handler)
    (id_p id_g : string) (t : json) (flt_p flt_g : faults) (w : world) : Prop :=
  let r1 := handle (PatchMovie id_p (Some t)) flt_p w in
  exists doc,
    (handle (GetMovie id_g) flt_g r1.2).1 = Response 200 (BJson doc)
    /\ json_field "title" doc = Some t.

(** The read that follows a delete answers 404.  The delete is sent under
    [id_d] and the read under [id_g]. *)
Definition not_found_after_delete (handle : request -> handler)
    (id_d id_g : string) (flt_d flt_g : faults) (w : world) : Prop :=
  let r1 := handle (DeleteMovie id_d) flt_d w in
  (handle (GetMovie id_g) flt_g r1.2).1 = Response 404 (BText "Not found").

End Vocabulary.

(** * Further vocabulary *)

Section MoreVocabulary.
Context `{Platform}.
Import RedisServer.

(** The two read handlers of each file. *)
Definition read_handlers (id : string) : list handler :=
  [Server.get_movies; Server.get_movie id;
   Part000.get_movies; Part000.get_movie id;
   RedisServer.get_movies; RedisServer.get_movie id].

(** Every key that is set stays set. *)
Definition keeps_entries (r r' : gmap string string) : Prop :=
  forall k, is_Some (r !! k) -> is_Some (r' !! k).

(** The cache keys that a request of redisServer.js names. *)
Definition touched (r : request) : list string :=
  match r with
  | GetMovies => ["movies"]
  | GetMovie id => [movie_key id]
  | PatchMovie id _ | DeleteMovie id => [movie_key id; "movies"]
  end.

(** The list handlers of the caching variants, with what each sends for a
    document. *)
Definition list_handlers : list (handler * (movie -> json)) :=
  [(Part000.get_movies, movie_json);
   (RedisServer.get_movies, simple_json ∘ simplifyMovie)].

(** The statuses a route handler answers with. *)
Definition status_ok (r : request) (o : outcome) : Prop :=
  match o with
  | Response st b =>
      st = 200
      \/ (st = 500 /\ exists e, b = error_body e)
      \/ (st = 404 /\ b = BText "Not found" /\ exists id, r = GetMovie id)
  | _ => True
  end.

(** Every per-item entry is the serialized projection of a document whose
    identifier is the one its key spells. *)
Definition item_ok (r : gmap string string) : Prop :=
  forall s text, r !! movie_key s = Some text ->
    exists i m, ObjectId s = Some i /\ _id m = i
                /\ text = JSON_stringify (simple_json (simplifyMovie m)).

(** The page of an outcome that reached the error middleware. *)
Definition error_page (env : string) (o : outcome) : option page :=
  match o with
  | Next e => Some (render_error env e)
  | _ => None
  end.

End MoreVocabulary.

(** * A reference platform

    Identifiers are strings of 24 hexadecimal digits, upper or lower case,
    as every version of the driver accepts them; JSON text is the compact
    form that JSON.stringify writes, for integer numbers and for strings
    whose only escapes are the quote and the backslash. *)

Module Reference.

(** ** Identifiers *)

Definition in_range (lo hi : N) (c : ascii) : bool :=
  let n := Ascii.N_of_ascii c in ((lo <=? n) && (n <=? hi))%N.

Definition is_digit (c : ascii) : bool := in_range 48 57 c.

Definition is_hex (c : ascii) : bool :=
  is_digit c || in_range 97 102 c || in_range 65 70 c.

Definition lower (c : ascii) : ascii :=
  if in_range 65 90 c then Ascii.ascii_of_N (Ascii.N_of_ascii c + 32) else c.

Fixpoint all_hex (s : string) : bool :=
  match s with
  | EmptyString => true
  | String c s' => is_hex c && all_hex s'
  end.

Fixpoint lowercase (s : string) : string :=
  match s with
  | EmptyString => EmptyString
  | String c s' => String (lower c) (lowercase s')
  end.

(** The identifier is kept as its lower-case hexadecimal text. *)
Definition ObjectId (s : string) : option string :=
  if (String.length s =? 24)%nat && all_hex s then Some (lowercase s) else None.

Definition BSONError : jserror :=
  {| ename := "BSONError";
     message := "input must be a 24 character hex string, 12 byte Uint8Array, or an integer";
     estatus := None |}.

(** ** JSON text *)

Definition quote : ascii := Ascii.ascii_of_N 34.
Definition backslash : ascii := Ascii.ascii_of_N 92.

Fixpoint escape (s : string) : string :=
  match s with
  | EmptyString => EmptyString
  | String c s' =>
      if Ascii.eqb c quote || Ascii.eqb c backslash
      then String backslash (String c (escape s'))
      else String c (escape s')
  end.

Definition print_string (s : string) : string :=
  String quote (escape s +:+ String quote EmptyString).

Fixpoint print_uint (d : Decimal.uint) : string :=
  match d with
  | Decimal.Nil => EmptyString
  | Decimal.D0 d => String "0" (print_uint d)
  | Decimal.D1 d => String "1" (print_uint d)
  | Decimal.D2 d => String "2" (print_uint d)
  | Decimal.D3 d => String "3" (print_uint d)
  | Decimal.D4 d => String "4" (print_uint d)
  | Decimal.D5 d => String "5" (print_uint d)
  | Decimal.D6 d => String "6" (print_uint d)
  | Decimal.D7 d => String "7" (print_uint d)
  | Decimal.D8 d => String "8" (print_uint d)
  | Decimal.D9 d => String "9" (print_uint d)
  end.

Definition print_num (z : Z) : string :=
  match Z.to_int z with
  | Decimal.Pos d => print_uint d
  | Decimal.Neg d => String "-" (print_uint d)
  end.

(** The elements of an array or an object, separated by commas, and the
    closing bracket. *)
Definition print_seq {A} (pr : A -> string) (close : ascii)
  : list A -> string :=
  fix go (l : list A) : string :=
    match l with
    | [] => String close EmptyString
    | [x] => pr x +:+ String close EmptyString
    | x :: l' => pr x +:+ String "," (go l')
    end.

Fixpoint print (v : json) : string :=
  match v with
  | JNull => "null"
  | JBool true => "true"
  | JBool false => "false"
  | JNum z => print_num z
  | JStr s => print_string s
  | JArr l => String "[" (print_seq print "]" l)
  | JObj fs =>
      String "{" (print_seq (fun kv => print_string kv.1 +:+ String ":" (print kv.2))
                    "}" fs)
  end.

(** [strip p s]: the rest of [s] after the prefix [p]. *)
Fixpoint strip (p s : string) : option string :=
  match p, s with
  | EmptyString, _ => Some s
  | String a p', String b s' => if Ascii.eqb a b then strip p' s' else None
  | _, _ => None
  end.

(** The characters of a string literal up to its closing quote. *)
Fixpoint parse_string (s : string) : option (string * string) :=
  match s with
  | EmptyString => None
  | String c r =>
      if Ascii.eqb c quote then Some (EmptyString, r)
      else if Ascii.eqb c backslash then
        match r with
        | String c' r' =>
            match parse_string r' with
            | Some (k, rest) => Some (String c' k, rest)
            | None => None
            end
        | EmptyString => None
        end
      else
        match parse_string r with
        | Some (k, rest) => Some (String c k, rest)
        | None => None
        end
  end.

Definition digit (c : ascii) : option (Decimal.uint -> Decimal.uint) :=
  if Ascii.eqb c "0" then Some Decimal.D0
  else if Ascii.eqb c "1" then Some Decimal.D1
  else if Ascii.eqb c "2" then Some Decimal.D2
  else if Ascii.eqb c "3" then Some Decimal.D3
  else if Ascii.eqb c "4" then Some Decimal.D4
  else if Ascii.eqb c "5" then Some Decimal.D5
  else if Ascii.eqb c "6" then Some Decimal.D6
  else if Ascii.eqb c "7" then Some Decimal.D7
  else if Ascii.eqb c "8" then Some Decimal.D8
  else if Ascii.eqb c "9" then Some Decimal.D9
  else None.

(** The longest prefix of digits. *)
Fixpoint parse_uint (s : string) : Decimal.uint * string :=
  match s with
  | EmptyString => (Decimal.Nil, EmptyString)
  | String c r =>
      match digit c with
      | Some dn => let '(d, rest) := parse_uint r in (dn d, rest)
      | None => (Decimal.Nil, s)
      end
  end.

Definition parse_num (s : string) : option (json * string) :=
  match s with
  | EmptyString => None
  | String c r =>
      if Ascii.eqb c "-" then
        match parse_uint r with
        | (Decimal.Nil, _) => None
        | (d, rest) => Some (JNum (Z.of_int (Decimal.Neg d)), rest)
        end
      else
        match parse_uint s with
        | (Decimal.Nil, _) => None
        | (d, rest) => Some (JNum (Z.of_int (Decimal.Pos d)), rest)
        end
  end.

(** Recursive descent; the fuel bounds the nesting and the number of
    elements, and the length of the text is always enough. *)
Fixpoint parse_value (n : nat) (s : string) {struct n} : option (json * string) :=
  match n, s with
  | S n, String c r =>
      if Ascii.eqb c "n" then r' ← strip "ull" r; Some (JNull, r')
      else if Ascii.eqb c "t" then r' ← strip "rue" r; Some (JBool true, r')
      else if Ascii.eqb c "f" then r' ← strip "alse" r; Some (JBool false, r')
      else if Ascii.eqb c quote then
        '(k, r') ← parse_string r; Some (JStr k, r')
      else if Ascii.eqb c "[" then
        match strip "]" r with
        | Some r' => Some (JArr [], r')
        | None => '(l, r') ← parse_items n r; Some (JArr l, r')
        end
      else if Ascii.eqb c "{" then
        match strip "}" r with
        | Some r' => Some (JObj [], r')
        | None => '(fs, r') ← parse_members n r; Some (JObj fs, r')
        end
      else parse_num s
  | _, _ => None
  end
with parse_items (n : nat) (s : string) {struct n} : option (list json * string) :=
  match n with
  | S n =>
      '(v, r) ← parse_value n s;
      match r with
      | String c r' =>
          if Ascii.eqb c "," then '(l, r'') ← parse_items n r'; Some (v :: l, r'')
          else if Ascii.eqb c "]" then Some ([v], r')
          else None
      | EmptyString => None
      end
  | O => None
  end
with parse_members (n : nat) (s : string) {struct n}
  : option (list (string * json) * string) :=
  match n with
  | S n =>
      r ← strip (String quote EmptyString) s;
      '(k, r) ← parse_string r;
      r ← strip ":" r;
      '(v, r) ← parse_value n r;
      match r with
      | String c r' =>
          if Ascii.eqb c "," then
            '(fs, r'') ← parse_members n r'; Some ((k, v) :: fs, r'')
          else if Ascii.eqb c "}" then Some ([(k, v)], r')
          else None
      | EmptyString => None
      end
  | O => None
  end.

(** The text that follows a number must not go on with a digit. *)
Definition no_digit_head (r : string) : Prop :=
  match r with
  | EmptyString => True
  | String c _ => digit c = None
  end.

(** A number starts with a character that belongs to no other value. *)
Definition number_head (c : ascii) : Prop :=
  Ascii.eqb c "n" = false /\ Ascii.eqb c "t" = false /\ Ascii.eqb c "f" = false
  /\ Ascii.eqb c quote = false /\ Ascii.eqb c "[" = false
  /\ Ascii.eqb c "{" = false.

Definition print_member (kv : string * json) : string :=
  print_string kv.1 +:+ String ":" (print kv.2).

(** The parser reads back the text of [v], whatever follows it. *)
Definition parses (v : json) : Prop :=
  forall r n, no_digit_head r -> String.length (print v) <= n ->
    parse_value n (print v +:+ r) = Some (v, r).

Definition parse_text (s : string) : option json :=
  match parse_value (S (String.length s)) s with
  | Some (v, EmptyString) => Some v
  | _ => None
  end.

Definition SyntaxError : jserror :=
  {| ename := "SyntaxError";
     message := "Unexpected token in JSON";
     estatus := None |}.

Definition platform : Platform :=
  Build_Platform string _ ObjectId BSONError (fun i => i) print parse_text
    SyntaxError.

#[local] Existing Instance platform.

(** ** A small collection, and faults *)

Definition blacksmith_id : string := "573a1390f29313caabcd4135".

(** The same identifier, spelled in upper case. *)
Definition blacksmith_ID : string := "573A1390F29313CAABCD4135".

Definition robbery_id : string := "573a1390f29313caabcd42e8".

(** A well-formed identifier that no document carries. *)
Definition unknown_id : string := "0123456789abcdef01234567".

Definition blacksmith : movie :=
  {| _id := blacksmith_id;
     props := [("plot", JStr "Three men hammer on an anvil.");
               ("title", JStr "Blacksmith Scene");
               ("year", JNum 1893)] |}.

Definition robbery : movie :=
  {| _id := robbery_id;
     props := [("title", JStr "The Great Train Robbery");
               ("year", JNum 1903)] |}.

(** Two documents, an empty cache. *)
Definition w0 : world :=
  {| db := [blacksmith; robbery]; redis := ∅; trace := [] |}.

Definition ECONNREFUSED : jserror :=
  {| ename := "Error";
     message := "connect ECONNREFUSED 127.0.0.1:6379";
     estatus := None |}.

(** Every Redis command fails. *)
Definition redis_down : faults :=
  fun e =>
    match e with
    | RedisGet _ | RedisSet _ _ | RedisDel _ => Some ECONNREFUSED
    | _ => None
    end.

(** Only the [set] commands fail. *)
Definition set_fails : faults :=
  fun e =>
    match e with
    | RedisSet _ _ => Some ECONNREFUSED
    | _ => None
    end.

(** Only the [del] commands fail. *)
Definition del_fails : faults :=
  fun e =>
    match e with
    | RedisDel _ => Some ECONNREFUSED
    | _ => None
    end.

(** The world after one read of the movie through redisServer.js, under
    the lower-case and under the upper-case spelling. *)
Definition w_read : world := (RedisServer.get_movie blacksmith_id no_faults w0).2.
Definition w_READ : world := (RedisServer.get_movie blacksmith_ID no_faults w0).2.

(** The world after one listing through redisServer.js. *)
Definition w_listed : world := (RedisServer.get_movies no_faults w0).2.

(** What the projection of the movie looks like before an update. *)
Definition blacksmith_projection : json :=
  JObj [("id", JStr blacksmith_id); ("title", JStr "Blacksmith Scene")].

(** Some traffic that does not update or delete the first movie. *)
Definition traffic : list (faults * request) :=
  [(no_faults, GetMovies);
   (set_fails, GetMovie blacksmith_id);
   (no_faults, PatchMovie robbery_id (Some (JStr "Robbery")));
   (redis_down, GetMovie blacksmith_ID);
   (no_faults, DeleteMovie unknown_id);
   (no_faults, GetMovie blacksmith_id)].

End Reference.

(** * Further scenarios on the reference platform *)

Module Scenarios.
Import Reference.
#[local] Existing Instance platform.

Definition ETIMEDOUT : jserror :=
  {| ename := "MongoNetworkTimeoutError";
     message := "connection timed out";
     estatus := None |}.

(** Every store call fails. *)
Definition store_down : faults :=
  fun e => if is_mongo e then Some ETIMEDOUT else None.

(** Only the re-read after an update fails. *)
Definition reread_fails : faults :=
  fun e =>
    match e with
    | MongoFindOne _ => Some ETIMEDOUT
    | _ => None
    end.

(** A cache whose list entry is not JSON text. *)
Definition w_corrupt : world :=
  {| db := [blacksmith; robbery];
     redis := {["movies" := "[{oops"]};
     trace := [] |}.

End Scenarios.

(** * Stepping a handler *)

Ltac unfold_handler :=
  cbv beta delta
    [Server.get_movies Server.get_movie Server.patch_movie Server.delete_movie
     Part000.get_movies Part000.get_movie Part000.patch_movie
     Part000.delete_movie
     RedisServer.get_movies RedisServer.get_movie RedisServer.patch_movie
     RedisServer.delete_movie
     route try_catch async_callback mbind mret M_bind M_ret bind ret throw
     new_ObjectId parse mongo collection_find collection_findOne
     collection_updateOne collection_deleteOne redisClient_get
     redisClient_set redisClient_del report console_log console_error].

Ltac use_equations :=
  repeat match goal with
         | E : ?x = _ |- context [match ?x with _ => _ end] => rewrite E
         | E : truthy ?x = _ |- context [truthy ?x] => rewrite E
         end.

Ltac reduce_handler :=
  cbn -[simple_json simplifyMovie movie_json UpdateResult_json
        DeleteResult_json updateOne deleteOne findOne].

(** Follow the one path that the hypotheses select. *)
Ltac step_handler := unfold_handler; repeat (reduce_handler; use_equations).

(** Follow every path. *)
Ltac split_handler :=
  unfold_handler; reduce_handler;
  repeat (case_match; reduce_handler; simplify_eq);
  repeat match goal with
         | E : ?x = (?a, _) |- _ =>
             is_var a; assert (a = x.1) by (by rewrite E); clear E; subst a
         end.

Ltac world_eq :=
  unfold logged, emit, with_redis, with_db; cbn;
  rewrite <- ?app_assoc; try reflexivity.

(** * Facts *)

(** ** The collection *)

Section StoreFacts.
Context `{Platform}.
Implicit Types (c : list movie) (i j : oid) (t : json) (m : movie).

Lemma get_prop_set_prop k v fs : get_prop k (set_prop k v fs) = Some v.
Proof.
  induction fs as [|[k' v'] fs IH]; cbn.
  - by rewrite String.eqb_refl.
  - destruct (String.eqb k k') eqn:E; cbn; rewrite E; [done | apply IH].
Qed.

Lemma has_id_true i m : has_id i m = true <-> _id m = i.
Proof. unfold has_id. by rewrite bool_decide_eq_true. Qed.

Lemma findOne_None i c : findOne i c = None <-> i ∉ (_id <$> c).
Proof.
  unfold findOne. induction c as [|m c IH]; cbn.
  - split; [intros _; apply not_elem_of_nil | done].
  - rewrite not_elem_of_cons. destruct (has_id i m) eqn:E.
    + apply has_id_true in E. split; [done | intros [? _]; congruence].
    + rewrite IH. split; [|tauto]. intros Hn. split; [|done].
      intros ->. rewrite <- Bool.not_true_iff_false in E.
      apply E. by apply has_id_true.
Qed.

Lemma updateOne_ids i t c : _id <$> (updateOne i t c).1 = _id <$> c.
Proof.
  induction c as [|m c IH]; cbn; [done|].
  destruct (has_id i m); cbn; [done|].
  destruct (updateOne i t c) as [c' r]; cbn in *. by rewrite IH.
Qed.

Lemma updateOne_findOne i t c :
  findOne i (updateOne i t c).1 = set_title t <$> findOne i c.
Proof.
  unfold findOne. induction c as [|m c IH]; cbn; [done|].
  destruct (has_id i m) eqn:E; cbn.
  - change (has_id i (set_title t m)) with (has_id i m). by rewrite E.
  - destruct (updateOne i t c) as [c' r]; cbn in *. by rewrite E.
Qed.

Lemma updateOne_findOne_ne i j t c :
  i <> j -> findOne j (updateOne i t c).1 = findOne j c.
Proof.
  intros Hne. unfold findOne. induction c as [|m c IH]; cbn; [done|].
  destruct (has_id i m) eqn:E; cbn.
  - apply has_id_true in E.
    change (has_id j (set_title t m)) with (has_id j m).
    replace (has_id j m) with false; [done|].
    symmetry. unfold has_id. apply bool_decide_eq_false. congruence.
  - destruct (updateOne i t c) as [c' r]; cbn in *. by rewrite IH.
Qed.

Lemma updateOne_matched i t c :
  matchedCount (updateOne i t c).2 = if findOne i c is Some _ then 1 else 0.
Proof.
  unfold findOne. induction c as [|m c IH]; cbn; [done|].
  destruct (has_id i m); cbn; [done|].
  by destruct (updateOne i t c) as [c' r].
Qed.

Lemma updateOne_miss i t c :
  findOne i c = None ->
  updateOne i t c = (c, {| matchedCount := 0; modifiedCount := 0 |}).
Proof.
  unfold findOne. induction c as [|m c IH]; cbn; [done|].
  destruct (has_id i m); [done|]. intros Hn. by rewrite (IH Hn).
Qed.

Lemma deleteOne_miss i c :
  findOne i c = None -> deleteOne i c = (c, {| deletedCount := 0 |}).
Proof.
  unfold findOne. induction c as [|m c IH]; cbn; [done|].
  destruct (has_id i m); [done|]. intros Hn. by rewrite (IH Hn).
Qed.

Lemma deleteOne_sublist i c : (deleteOne i c).1 `sublist_of` c.
Proof.
  induction c as [|m c IH]; cbn; [done|].
  destruct (has_id i m); cbn; [by apply sublist_cons|].
  destruct (deleteOne i c) as [c' r]; cbn in *. by apply sublist_skip.
Qed.

Lemma deleteOne_findOne_ne i j c :
  i <> j -> findOne j (deleteOne i c).1 = findOne j c.
Proof.
  intros Hne. unfold findOne. induction c as [|m c IH]; cbn; [done|].
  destruct (has_id i m) eqn:E; cbn.
  - apply has_id_true in E.
    replace (has_id j m) with false; [done|].
    symmetry. unfold has_id. apply bool_decide_eq_false. congruence.
  - destruct (deleteOne i c) as [c' r]; cbn in *. by rewrite IH.
Qed.

(** With the unique index, the deleted identifier is gone. *)
Lemma deleteOne_findOne i c :
  unique_ids c -> findOne i (deleteOne i c).1 = None.
Proof.
  unfold unique_ids. induction c as [|m c IH]; cbn; [done|].
  intros [Hm Hc]%NoDup_cons. destruct (has_id i m) eqn:E; cbn.
  - apply has_id_true in E. subst i. by apply findOne_None.
  - specialize (IH Hc). destruct (deleteOne i c) as [c' r]; cbn in *.
    unfold findOne in *. cbn. by rewrite E.
Qed.

(** Nothing the API does adds an identifier to the collection. *)
Lemma deleteOne_absent i j c :
  findOne j c = None -> findOne j (deleteOne i c).1 = None.
Proof.
  rewrite !findOne_None. intros Hn Hin. apply Hn.
  eapply elem_of_sublist; [done|]. apply fmap_sublist, deleteOne_sublist.
Qed.

Lemma updateOne_absent i j t c :
  findOne j c = None -> findOne j (updateOne i t c).1 = None.
Proof. rewrite !findOne_None. by rewrite updateOne_ids. Qed.

Lemma updateOne_unique i t c : unique_ids c -> unique_ids (updateOne i t c).1.
Proof. unfold unique_ids. by rewrite updateOne_ids. Qed.

Lemma deleteOne_unique i c : unique_ids c -> unique_ids (deleteOne i c).1.
Proof.
  unfold unique_ids. intros Hc.
  eapply sublist_NoDup; [done|]. apply fmap_sublist, deleteOne_sublist.
Qed.

Lemma find_limit_length n c : length (find_limit n c) <= n.
Proof. unfold find_limit. rewrite length_take. lia. Qed.

End StoreFacts.

(** ** The cache and the trace *)

Section CacheFacts.
Context `{Platform}.

Lemma since_logged es (w : world) : since w (logged es w) = es.
Proof. unfold since, logged; cbn. by rewrite drop_app_length. Qed.

Lemma movie_key_inj a b :
  RedisServer.movie_key a = RedisServer.movie_key b -> a = b.
Proof. unfold RedisServer.movie_key. cbv [String.append]. by intros [= ->]. Qed.

Lemma movie_key_not_list a : RedisServer.movie_key a <> "movies".
Proof. unfold RedisServer.movie_key. cbv [String.append]. by intros [=]. Qed.

Lemma truthy_Some r s : truthy r = Some s -> r = Some s /\ s <> EmptyString.
Proof.
  destruct r as [s'|]; cbn; [|done].
  destruct (String.eqb s' EmptyString) eqn:E; [done|].
  intros [= ->]. by apply String.eqb_neq in E.
Qed.

Lemma truthy_hit r s : r = Some s -> s <> EmptyString -> truthy r = Some s.
Proof. intros -> Hne. cbn. by apply String.eqb_neq in Hne as ->. Qed.

End CacheFacts.

(** ** The list endpoint *)

Section ListEndpoint.
Context `{Platform}.

(** C7.  In both caching variants, when the cache read of the list key
    fails, the list handler logs the error and hands it to [next]: the
    request ends in the error middleware, and the store is not queried. *)
Theorem list_read_error_propagates (flt : faults) (w : world) (err : jserror) :
  flt (RedisGet "movies") = Some err ->
  let w' :=
    logged [RedisGet "movies";
            ConsoleError ("Error fetching movies from Redis: "
                          +:+ error_toString err)] w in
  Part000.get_movies flt w = (Next err, w')
  /\ RedisServer.get_movies flt w = (Next err, w')
  /\ filter is_mongo (since w w') = []
  /\ served (Next err) = Some (error_handler err).
Proof.
  intros Hf w'. repeat split.
  - step_handler. subst w'. f_equal. world_eq.
  - step_handler. subst w'. f_equal. world_eq.
  - subst w'. by rewrite since_logged.
Qed.

Lemma list_hit_Part000 flt w s v :
  flt (RedisGet "movies") = None ->
  redis w !! "movies" = Some s -> s <> EmptyString -> JSON_parse s = Some v ->
  list_hit Part000.get_movies flt w s v.
Proof.
  intros Hf Hs Hne Hv.
  pose proof (truthy_hit _ _ Hs Hne) as Ht. repeat split.
  - step_handler. f_equal. world_eq.
  - by rewrite since_logged.
  - intros Hrt v0 ->. rewrite Hrt in Hv. congruence.
Qed.

Lemma list_hit_RedisServer flt w s v :
  flt (RedisGet "movies") = None ->
  redis w !! "movies" = Some s -> s <> EmptyString -> JSON_parse s = Some v ->
  list_hit RedisServer.get_movies flt w s v.
Proof.
  intros Hf Hs Hne Hv.
  pose proof (truthy_hit _ _ Hs Hne) as Ht. repeat split.
  - step_handler. f_equal. world_eq.
  - by rewrite since_logged.
  - intros Hrt v0 ->. rewrite Hrt in Hv. congruence.
Qed.

Lemma list_miss_Part000 flt w :
  flt (RedisGet "movies") = None -> truthy (redis w !! "movies") = None ->
  flt (MongoFind 10) = None ->
  list_miss Part000.get_movies movie_json flt w.
Proof.
  intros Hf Hm Hd. unfold list_miss, find_limit. cbv zeta.
  remember (JSON_stringify _) as text eqn:Ht.
  destruct (flt (RedisSet "movies" text)) as [e|] eqn:Hset;
    eexists; (split; [step_handler; rewrite <- Ht, Hset; cbn; reflexivity|]);
    (split; [apply (find_limit_length 10 (db w))|]);
    unfold since; cbn; rewrite <- ?app_assoc, drop_app_length; done.
Qed.

Lemma list_miss_RedisServer flt w :
  flt (RedisGet "movies") = None -> truthy (redis w !! "movies") = None ->
  flt (MongoFind 10) = None ->
  list_miss RedisServer.get_movies (simple_json ∘ simplifyMovie) flt w.
Proof.
  intros Hf Hm Hd. unfold list_miss, find_limit. cbv zeta.
  rewrite list_fmap_compose.
  remember (JSON_stringify _) as text eqn:Ht.
  destruct (flt (RedisSet "movies" text)) as [e|] eqn:Hset;
    eexists; (split; [step_handler; rewrite <- Ht, Hset;
                      cbn; reflexivity|]);
    (split; [apply (find_limit_length 10 (db w))|]);
    unfold since; cbn; rewrite <- ?app_assoc, drop_app_length; done.
Qed.

(** C6.  In both caching variants: when the list key holds the text [s] of
    a serialized list, the list handler answers with the value [s] parses
    to, whose text is [s] again, and does not query the store; when the
    key is unset, the handler queries the store with limit 10, maps each
    document to what the variant sends (the document, or its projection
    to id, name and title), issues one [set] of the serialized result
    under the list key, which holds that text afterwards unless the [set]
    failed, and answers with that result. *)
Theorem list_read_through (flt : faults) (w : world) :
  flt (RedisGet "movies") = None ->
  (forall s v,
      redis w !! "movies" = Some s -> s <> EmptyString -> JSON_parse s = Some v ->
      list_hit Part000.get_movies flt w s v
      /\ list_hit RedisServer.get_movies flt w s v)
  /\ (redis w !! "movies" = None -> flt (MongoFind 10) = None ->
      list_miss Part000.get_movies movie_json flt w
      /\ list_miss RedisServer.get_movies (simple_json ∘ simplifyMovie) flt w).
Proof.
  intros Hf. split.
  - intros s v Hs Hne Hv.
    split; [by apply list_hit_Part000 | by apply list_hit_RedisServer].
  - intros Hm Hd.
    split; [apply list_miss_Part000 | apply list_miss_RedisServer];
      try done; by rewrite Hm.
Qed.

End ListEndpoint.

(** ** Reading one movie *)

Section ItemEndpoint.
Context `{Platform}.
Import RedisServer.

Lemma get_movie_miss movieId i m flt w :
  flt (RedisGet (movie_key movieId)) = None ->
  truthy (redis w !! movie_key movieId) = None ->
  ObjectId movieId = Some i ->
  flt (MongoFindOne i) = None ->
  findOne i (db w) = Some m ->
  item_miss movieId i m flt w.
Proof.
  intros Hg Hm Hi Hd Hf. unfold item_miss. cbv zeta.
  remember (JSON_stringify _) as text eqn:Ht.
  destruct (flt (RedisSet (movie_key movieId) text)) as [e|] eqn:Hset;
    eexists; (split; [step_handler; rewrite <- Ht, Hset; cbn; reflexivity|]);
    unfold since; cbn; rewrite <- ?app_assoc, drop_app_length; done.
Qed.

(** A cache hit of [RedisServer.get_movie] on the text [s]. *)
Lemma get_movie_hit movieId s v flt w :
  flt (RedisGet (movie_key movieId)) = None ->
  redis w !! movie_key movieId = Some s -> s <> EmptyString ->
  JSON_parse s = Some v ->
  get_movie movieId flt w
  = (Response 200 (BJson v),
     logged [RedisGet (movie_key movieId);
             ConsoleLog "Fetching movie from Redis cache"] w).
Proof.
  intros Hg Hs Hne Hv. pose proof (truthy_hit _ _ Hs Hne) as Ht.
  step_handler. f_equal. world_eq.
Qed.

(** A miss for an identifier the store does not hold. *)
Lemma get_movie_absent movieId i flt w :
  flt (RedisGet (movie_key movieId)) = None ->
  truthy (redis w !! movie_key movieId) = None ->
  ObjectId movieId = Some i ->
  flt (MongoFindOne i) = None ->
  findOne i (db w) = None ->
  get_movie movieId flt w
  = (Response 404 (BText "Not found"),
     logged [RedisGet (movie_key movieId);
             ConsoleLog "No movie found in Redis cache, fetching from MongoDB";
             MongoFindOne i] w).
Proof.
  intros Hg Hm Hi Hd Hf. step_handler. f_equal. world_eq.
Qed.

(** The uncached get-by-id of server.js and part_000. *)
Lemma get_movie_uncached id i flt w :
  ObjectId id = Some i -> flt (MongoFindOne i) = None ->
  let o := match findOne i (db w) with
           | Some m => Response 200 (BJson (movie_json m))
           | None => Response 404 (BText "Not found")
           end in
  Server.get_movie id flt w = (o, logged [MongoFindOne i] w)
  /\ Part000.get_movie id flt w = (o, logged [MongoFindOne i] w).
Proof.
  intros Hi Hd. split; step_handler;
    destruct (findOne _ _); cbn; f_equal; world_eq; by destruct w.
Qed.

(** C10.  When every cache [set] fails with [err], a read that missed the
    cache and fetched from the store still answers 200 with the fetched
    data: the list handlers of both caching variants and the get-by-id
    handler of the per-item variant leave the cache and the store as they
    were and, after the failed [set], only write the error to the
    console. *)
Theorem set_failure_only_logged (flt : faults) (w : world) (err : jserror) :
  (forall k v, flt (RedisSet k v) = Some err) ->
  (flt (RedisGet "movies") = None -> truthy (redis w !! "movies") = None ->
   flt (MongoFind 10) = None ->
   forall get_movies view,
     (get_movies, view) ∈ [(Part000.get_movies, movie_json);
                           (RedisServer.get_movies, simple_json ∘ simplifyMovie)] ->
     let sent := JArr (view <$> find_limit 10 (db w)) in
     exists w',
       get_movies flt w = (Response 200 (BJson sent), w')
       /\ db w' = db w /\ redis w' = redis w
       /\ since w w' =
            [RedisGet "movies";
             ConsoleLog "No movies found in Redis cache, fetching from MongoDB";
             MongoFind 10;
             RedisSet "movies" (JSON_stringify sent);
             ConsoleError ("Error caching movies in Redis: "
                           +:+ error_toString err)])
  /\ (forall movieId i m,
       flt (RedisGet (movie_key movieId)) = None ->
       truthy (redis w !! movie_key movieId) = None ->
       ObjectId movieId = Some i -> flt (MongoFindOne i) = None ->
       findOne i (db w) = Some m ->
       let sent := simple_json (simplifyMovie m) in
       exists w',
         get_movie movieId flt w = (Response 200 (BJson sent), w')
         /\ db w' = db w /\ redis w' = redis w
         /\ since w w' =
              [RedisGet (movie_key movieId);
               ConsoleLog "No movie found in Redis cache, fetching from MongoDB";
               MongoFindOne i;
               RedisSet (movie_key movieId) (JSON_stringify sent);
               ConsoleError ("Error caching movie in Redis: "
                             +:+ error_toString err)]).
Proof.
  intros Hset. split.
  - intros Hg Hm Hd get_movies view Hin sent.
    assert (list_miss get_movies view flt w) as (w' & Hrun & _ & Hs & Hdb & Hr).
    { apply list_elem_of_In in Hin. destruct Hin as [[= <- <-]|[[= <- <-]|[]]].
      - by apply list_miss_Part000.
      - by apply list_miss_RedisServer. }
    rewrite Hset in Hs, Hr. by exists w'.
  - intros movieId i m Hg Hm Hi Hd Hf sent.
    destruct (get_movie_miss movieId i m flt w) as (w' & Hrun & Hs & Hdb & Hr);
      try done.
    rewrite Hset in Hs, Hr. by exists w'.
Qed.

End ItemEndpoint.

(** ** Identifiers the driver rejects, and identifiers that match nothing *)

Section Identifiers.
Context `{Platform}.
Import RedisServer.

(** C4, as the code has it.  When the driver rejects the identifier, the
    get-by-id, update and delete handlers of server.js and part_000 and
    the update and delete handlers of redisServer.js answer 500 with the
    body [{error: message}] of the driver's error, before any call to the
    store or the cache; the answer is not a client error. *)
Theorem rejected_identifier_is_500
    (id : string) (title : option json) (flt : faults) (w : world) :
  ObjectId id = None ->
  Forall (fun h : handler =>
            h flt w = (Response 500 (error_body BSONError), w)
            /\ ~ client_error (h flt w).1)
         (guarded_handlers id title).
Proof.
  intros Hid.
  assert (~ client_error (Response 500 (error_body BSONError))) as Hno.
  { intros (st & b & [= <- _] & Hst). lia. }
  unfold guarded_handlers.
  repeat (apply Forall_cons; split;
          [assert (forall (h : handler) o, h flt w = (o, w) ->
                     ~ client_error o -> h flt w = (o, w) /\ ~ client_error (h flt w).1)
             as Hpack by (by intros h o ->);
           apply Hpack; [by step_handler | exact Hno] |]).
  apply Forall_nil_2.
Qed.

(** The get-by-id handler of redisServer.js builds the identifier inside
    the asynchronous callback: on a miss the exception escapes. *)
Lemma get_movie_rejected_unhandled (id : string) (flt : faults) (w : world) :
  ObjectId id = None ->
  flt (RedisGet (movie_key id)) = None ->
  truthy (redis w !! movie_key id) = None ->
  (get_movie id flt w).1 = Unhandled BSONError.
Proof. intros Hid Hg Hm. by step_handler. Qed.

(** C9.  For an identifier the driver accepts and no document carries,
    update and delete answer 200 with the driver's summary, in every
    variant: matchedCount and modifiedCount are 0 for the update,
    deletedCount is 0 for the delete, and the collection is unchanged. *)
Theorem unmatched_mutation_is_200
    (id : string) (i : oid) (title : option json) (flt : faults) (w : world) :
  ObjectId id = Some i ->
  findOne i (db w) = None ->
  (flt (MongoUpdateOne i (bson_value title)) = None ->
   forall patch_movie,
     patch_movie ∈ [Server.patch_movie; Part000.patch_movie;
                    RedisServer.patch_movie] ->
     let summary := UpdateResult_json {| matchedCount := 0; modifiedCount := 0 |} in
     (exists w', patch_movie id title flt w = (Response 200 (BJson summary), w')
                 /\ db w' = db w)
     /\ json_field "matchedCount" summary = Some (JNum 0))
  /\ (flt (MongoDeleteOne i) = None ->
      forall delete_movie,
        delete_movie ∈ [Server.delete_movie; Part000.delete_movie;
                        RedisServer.delete_movie] ->
        let summary := DeleteResult_json {| deletedCount := 0 |} in
        (exists w', delete_movie id flt w = (Response 200 (BJson summary), w')
                    /\ db w' = db w)
        /\ json_field "deletedCount" summary = Some (JNum 0)).
Proof.
  intros Hid Hnone. split.
  - intros Hd patch_movie Hin summary. split; [|done].
    apply list_elem_of_In in Hin.
    destruct Hin as [<-|[<-|[<-|[]]]]; step_handler;
      rewrite (updateOne_miss _ _ _ Hnone); reduce_handler; use_equations;
      reduce_handler;
      try destruct (flt (RedisDel "movies")); reduce_handler;
      eexists; (split; [reflexivity|done]).
  - intros Hd delete_movie Hin summary. split; [|done].
    apply list_elem_of_In in Hin.
    destruct Hin as [<-|[<-|[<-|[]]]]; step_handler;
      rewrite (deleteOne_miss _ _ Hnone); reduce_handler; use_equations;
      reduce_handler;
      try destruct (flt (RedisDel (movie_key id))); reduce_handler;
      try destruct (flt (RedisDel "movies")); reduce_handler;
      eexists; (split; [reflexivity|done]).
Qed.

End Identifiers.

(** ** What one request can do to the world *)

Section Effects.
Context `{Platform}.
Import RedisServer.

Lemma Server_get_movies_effect flt w :
  let w' := (Server.get_movies flt w).2 in db w' = db w /\ redis w' = redis w.
Proof. split_handler; done. Qed.

Lemma Part000_get_movies_effect flt w :
  list_effect Part000.get_movies movie_json flt w.
Proof. unfold list_effect. split_handler; auto. Qed.

Lemma RedisServer_get_movies_effect flt w :
  list_effect RedisServer.get_movies (simple_json ∘ simplifyMovie) flt w.
Proof.
  unfold list_effect. rewrite list_fmap_compose. split_handler; auto.
Qed.

(** Reading one movie without a cache. *)
Lemma uncached_get_movie_effect id flt w :
  (let w' := (Server.get_movie id flt w).2 in db w' = db w /\ redis w' = redis w)
  /\ (let w' := (Part000.get_movie id flt w).2 in
      db w' = db w /\ redis w' = redis w).
Proof. split; split_handler; done. Qed.

(** Reading one movie through the per-item cache. *)
Lemma RedisServer_get_movie_effect movieId flt w :
  let w' := (get_movie movieId flt w).2 in
  db w' = db w
  /\ (redis w' = redis w
      \/ exists i m,
          ObjectId movieId = Some i /\ findOne i (db w) = Some m
          /\ truthy (redis w !! movie_key movieId) = None
          /\ redis w' = <[movie_key movieId :=
                           JSON_stringify (simple_json (simplifyMovie m))]>
                         (redis w)).
Proof. split_handler; eauto 10. Qed.

(** Updates. *)
Lemma Server_patch_movie_effect id title flt w :
  let w' := (Server.patch_movie id title flt w).2 in
  redis w' = redis w
  /\ (db w' = db w
      \/ exists i, ObjectId id = Some i
                   /\ db w' = (updateOne i (bson_value title) (db w)).1).
Proof. split_handler; eauto. Qed.

Lemma Part000_patch_movie_effect id title flt w :
  let w' := (Part000.patch_movie id title flt w).2 in
  (db w' = db w /\ redis w' = redis w)
  \/ exists i failed,
      ObjectId id = Some i
      /\ db w' = (updateOne i (bson_value title) (db w)).1
      /\ redis w' = unless_failed failed (delete "movies") (redis w).
Proof.
  split_handler; eauto;
    right; eexists _, _; (split; [done|]); (split; [done|]);
    first [by instantiate (1 := true) | by instantiate (1 := false)].
Qed.

Lemma RedisServer_patch_movie_effect movieId title flt w :
  let w' := (patch_movie movieId title flt w).2 in
  (db w' = db w /\ redis w' = redis w)
  \/ exists i,
      ObjectId movieId = Some i
      /\ db w' = (updateOne i (bson_value title) (db w)).1
      /\ (redis w' = redis w
          \/ exists m failed_set failed_del,
              findOne i (db w') = Some m
              /\ redis w' =
                   unless_failed failed_del (delete "movies")
                     (unless_failed failed_set
                        (<[movie_key movieId :=
                             JSON_stringify (simple_json (simplifyMovie m))]>)
                        (redis w))).
Proof.
  split_handler; eauto;
    right; eexists; (split; [done|]); (split; [done|]); eauto;
    right; eexists _, _, _; (split; [done|]);
    first [ by instantiate (1 := true); instantiate (1 := true)
          | by instantiate (1 := true); instantiate (1 := false)
          | by instantiate (1 := false); instantiate (1 := true)
          | by instantiate (1 := false); instantiate (1 := false) ].
Qed.

(** Deletes. *)
Lemma Server_delete_movie_effect id flt w :
  let w' := (Server.delete_movie id flt w).2 in
  redis w' = redis w
  /\ (db w' = db w
      \/ exists i, ObjectId id = Some i /\ db w' = (deleteOne i (db w)).1).
Proof. split_handler; eauto. Qed.

Lemma Part000_delete_movie_effect id flt w :
  let w' := (Part000.delete_movie id flt w).2 in
  (db w' = db w /\ redis w' = redis w)
  \/ exists i failed,
      ObjectId id = Some i
      /\ db w' = (deleteOne i (db w)).1
      /\ redis w' = unless_failed failed (delete "movies") (redis w).
Proof.
  split_handler; eauto;
    right; eexists _, _; (split; [done|]); (split; [done|]);
    first [by instantiate (1 := true) | by instantiate (1 := false)].
Qed.

Lemma RedisServer_delete_movie_effect movieId flt w :
  let w' := (delete_movie movieId flt w).2 in
  (db w' = db w /\ redis w' = redis w)
  \/ exists i failed_item failed_list,
      ObjectId movieId = Some i
      /\ db w' = (deleteOne i (db w)).1
      /\ redis w' =
           unless_failed failed_list (delete "movies")
             (unless_failed failed_item (delete (movie_key movieId)) (redis w)).
Proof.
  split_handler; eauto;
    right; eexists _, _, _; (split; [done|]); (split; [done|]);
    first [ by instantiate (1 := true); instantiate (1 := true)
          | by instantiate (1 := true); instantiate (1 := false)
          | by instantiate (1 := false); instantiate (1 := true)
          | by instantiate (1 := false); instantiate (1 := false) ].
Qed.

End Effects.


(** ** The reference platform satisfies the codec laws *)

Module ReferenceFacts.
Import Reference.

Lemma app_cons c s r : String c s +:+ r = String c (s +:+ r).
Proof. reflexivity. Qed.

Lemma app_nil_r s : s +:+ EmptyString = s.
Proof. induction s as [|c s IH]; [done|]. by rewrite app_cons, IH. Qed.

Lemma app_assoc s1 s2 s3 : (s1 +:+ s2) +:+ s3 = s1 +:+ (s2 +:+ s3).
Proof. induction s1 as [|c s1 IH]; [done|]. by rewrite !app_cons, IH. Qed.

Lemma length_app s1 s2 :
  String.length (s1 +:+ s2) = String.length s1 + String.length s2.
Proof. induction s1 as [|c s1 IH]; [done|]. rewrite app_cons. cbn. by rewrite IH. Qed.

Lemma strip_app p r : strip p (p +:+ r) = Some r.
Proof.
  induction p as [|c p IH]; [by destruct r|].
  rewrite app_cons. cbn. by rewrite Ascii.eqb_refl.
Qed.

Lemma parse_string_escape s r :
  parse_string (escape s +:+ String quote r) = Some (s, r).
Proof.
  induction s as [|c s IH]; [done|]. cbn [escape].
  destruct (Ascii.eqb c quote || Ascii.eqb c backslash) eqn:E.
  - rewrite !app_cons. cbn [parse_string].
    replace (Ascii.eqb backslash quote) with false by done.
    rewrite Ascii.eqb_refl. by rewrite IH.
  - apply orb_false_elim in E as [E1 E2].
    rewrite app_cons. cbn [parse_string]. by rewrite E1, E2, IH.
Qed.

Lemma parse_uint_print d r :
  no_digit_head r -> parse_uint (print_uint d +:+ r) = (d, r).
Proof.
  intros Hr.
  induction d as [|d IH|d IH|d IH|d IH|d IH|d IH|d IH|d IH|d IH|d IH];
    cbn [print_uint]; rewrite ?app_cons; cbn [parse_uint].
  { change (EmptyString +:+ r) with r.
    destruct r as [|c r]; [done|]. cbn [parse_uint].
    unfold no_digit_head in Hr. by rewrite Hr. }
  all: match goal with
       | |- context [digit ?c] =>
           let v := eval vm_compute in (digit c) in change (digit c) with v
       end; by rewrite IH.
Qed.

Lemma print_uint_head d :
  d <> Decimal.Nil ->
  exists c s, print_uint d = String c s /\ is_Some (digit c)
              /\ Ascii.eqb c "-" = false /\ Ascii.eqb c "n" = false
              /\ Ascii.eqb c "t" = false /\ Ascii.eqb c "f" = false
              /\ Ascii.eqb c quote = false /\ Ascii.eqb c "[" = false
              /\ Ascii.eqb c "{" = false.
Proof.
  intros Hd. destruct d; [done|..]; cbn [print_uint];
    eexists _, _; (split; [reflexivity|]);
    (split; [by eexists|]); repeat split; by vm_compute.
Qed.

Lemma to_int_nonnil z :
  match Z.to_int z with
  | Decimal.Pos d | Decimal.Neg d => d <> Decimal.Nil
  end.
Proof.
  destruct z as [|p|p]; cbn; [done|..];
    apply DecimalPos.Unsigned.to_uint_nonnil.
Qed.

Lemma parse_num_print z r :
  no_digit_head r -> parse_num (print_num z +:+ r) = Some (JNum z, r).
Proof.
  intros Hr. pose proof (to_int_nonnil z) as Hnn.
  pose proof (DecimalZ.of_to z) as Hz. unfold print_num.
  destruct (Z.to_int z) as [d|d].
  - destruct (print_uint_head d Hnn) as (c & s & Hp & _ & Hm & _).
    assert (parse_uint (print_uint d +:+ r) = (d, r)) as Hu
      by by apply parse_uint_print.
    rewrite Hp in *. rewrite app_cons in *. unfold parse_num.
    rewrite Hm, Hu. destruct d; [done|..]; by rewrite Hz.
  - rewrite app_cons. unfold parse_num. rewrite Ascii.eqb_refl.
    rewrite parse_uint_print by done. destruct d; [done|..]; by rewrite Hz.
Qed.

(** The first character of a value tells the parser which value it is, and
    is not a closing bracket. *)
Lemma print_head v :
  exists c s, print v = String c s /\ Ascii.eqb "]" c = false.
Proof.
  destruct v as [|[]|z|s|l|fs]; try by (eexists _, _; split; [reflexivity|]).
  pose proof (to_int_nonnil z) as Hnn. cbn [print]. unfold print_num.
  destruct (Z.to_int z) as [d|d]; [|by eexists _, _].
  destruct d; [done|..]; by eexists _, _.
Qed.

Lemma print_nonempty v : print v <> EmptyString.
Proof. destruct (print_head v) as (c & s & -> & _). done. Qed.

Lemma json_ind_nested (P : json -> Prop) :
  P JNull -> (forall b, P (JBool b)) -> (forall n, P (JNum n)) ->
  (forall s, P (JStr s)) ->
  (forall l, Forall P l -> P (JArr l)) ->
  (forall fs, Forall (fun kv => P kv.2) fs -> P (JObj fs)) ->
  forall v, P v.
Proof.
  intros Hnull Hbool Hnum Hstr Harr Hobj.
  fix IH 1. intros [|b|n|s|l|fs].
  - exact Hnull.
  - apply Hbool.
  - apply Hnum.
  - apply Hstr.
  - apply Harr. induction l as [|v l IHl]; constructor; [apply IH | exact IHl].
  - apply Hobj.
    induction fs as [|[k v] fs IHfs]; constructor; [apply IH | exact IHfs].
Qed.

Lemma print_num_head z : exists c s, print_num z = String c s /\ number_head c.
Proof.
  pose proof (to_int_nonnil z) as Hnn. unfold print_num.
  destruct (Z.to_int z) as [d|d].
  - destruct (print_uint_head d Hnn) as (c & s & -> & _ & _ & ? & ? & ? & ? & ? & ?).
    by eexists _, _.
  - eexists _, _. split; [reflexivity|]. repeat split; by vm_compute.
Qed.

Lemma parse_value_number n c s :
  number_head c -> parse_value (S n) (String c s) = parse_num (String c s).
Proof.
  intros (E1 & E2 & E3 & E4 & E5 & E6). cbn [parse_value].
  by rewrite E1, E2, E3, E4, E5, E6.
Qed.

Lemma print_seq_length {A} (pr : A -> string) c x l :
  String.length (pr x) < String.length (print_seq pr c (x :: l))
  /\ (l <> [] ->
      String.length (pr x) + String.length (print_seq pr c l)
      < String.length (print_seq pr c (x :: l))).
Proof.
  destruct l as [|y l]; cbn [print_seq].
  - rewrite length_app. cbn. split; [lia|done].
  - rewrite length_app. cbn [String.length]. split; [lia|]. intros _. lia.
Qed.

Lemma parse_items_print l r n :
  Forall parses l -> l <> [] -> no_digit_head r ->
  String.length (print_seq print "]" l) <= n ->
  parse_items n (print_seq print "]" l +:+ r) = Some (l, r).
Proof.
  intros Hall. revert n. induction Hall as [|v l Hv Hall IH]; [done|].
  intros n _ Hr Hn.
  destruct (print_seq_length print "]" v l) as [Hlen1 Hlen2].
  destruct n as [|n]; [lia|]. cbn [parse_items].
  destruct l as [|v' l].
  - cbn [print_seq]. rewrite app_assoc, app_cons.
    rewrite Hv; [|done|lia]. cbn. done.
  - change (print_seq print "]" (v :: v' :: l))
      with (print v +:+ String "," (print_seq print "]" (v' :: l))).
    rewrite app_assoc, app_cons.
    rewrite Hv; [|done|lia]. cbn -[print_seq parse_items].
    rewrite IH; [done|done|done|]. specialize (Hlen2 ltac:(done)). lia.
Qed.

Lemma parse_members_print fs r n :
  Forall (fun kv => parses kv.2) fs -> fs <> [] -> no_digit_head r ->
  String.length (print_seq print_member "}" fs) <= n ->
  parse_members n (print_seq print_member "}" fs +:+ r) = Some (fs, r).
Proof.
  intros Hall. revert n. induction Hall as [|[k v] fs Hv Hall IH]; [done|].
  intros n _ Hr Hn.
  destruct (print_seq_length print_member "}" (k, v) fs) as [Hlen1 Hlen2].
  assert (String.length (print v) < String.length (print_member (k, v))) as Hlenv.
  { unfold print_member. rewrite length_app. cbn. lia. }
  assert (forall rest,
    print_member (k, v) +:+ rest
    = String quote (escape k +:+ String quote (String ":" (print v +:+ rest))))
    as Hmember.
  { intros rest. unfold print_member, print_string. cbn [fst snd].
    repeat (rewrite app_cons || rewrite app_assoc). done. }
  destruct n as [|n]; [lia|]. cbn [parse_members].
  destruct fs as [|kv' fs].
  - cbn [print_seq]. rewrite app_assoc, Hmember.
    cbn [strip]. rewrite Ascii.eqb_refl. cbn [mbind option_bind].
    rewrite parse_string_escape. cbn [mbind option_bind strip].
    rewrite Ascii.eqb_refl. cbn [mbind option_bind].
    cbn [snd] in Hv. rewrite Hv; [|done|lia]. cbn. done.
  - change (print_seq print_member "}" ((k, v) :: kv' :: fs))
      with (print_member (k, v)
            +:+ String "," (print_seq print_member "}" (kv' :: fs))).
    rewrite app_assoc, Hmember.
    cbn [strip]. rewrite Ascii.eqb_refl. cbn [mbind option_bind].
    rewrite parse_string_escape. cbn [mbind option_bind strip].
    rewrite Ascii.eqb_refl. cbn [mbind option_bind].
    cbn [snd] in Hv. rewrite app_cons. rewrite Hv; [|done|lia].
    cbn -[print_seq parse_members].
    rewrite IH; [done|done|done|]. specialize (Hlen2 ltac:(done)). lia.
Qed.

Lemma parse_value_print v : parses v.
Proof.
  induction v as [|b|z|s|l IH|fs IH] using json_ind_nested; intros r n Hr Hn.
  - destruct n as [|n]; [cbn in Hn; lia|].
    cbn [print]. rewrite app_cons. cbn [parse_value].
    by rewrite Ascii.eqb_refl, strip_app.
  - destruct n as [|n]; [destruct b; cbn in Hn; lia|].
    destruct b; cbn [print]; rewrite app_cons; cbn [parse_value].
    + replace (Ascii.eqb "t" "n") with false by done.
      by rewrite Ascii.eqb_refl, strip_app.
    + replace (Ascii.eqb "f" "n") with false by done.
      replace (Ascii.eqb "f" "t") with false by done.
      by rewrite Ascii.eqb_refl, strip_app.
  - destruct (print_num_head z) as (c & s & Hp & Hc).
    assert (parse_num (print_num z +:+ r) = Some (JNum z, r)) as Hnum
      by by apply parse_num_print.
    cbn [print] in *. rewrite Hp in *. rewrite app_cons in *.
    destruct n as [|n]; [cbn in Hn; lia|]. by rewrite parse_value_number.
  - destruct n as [|n]; [cbn in Hn; lia|].
    cbn [print]. unfold print_string. rewrite app_cons, app_assoc, app_cons.
    cbn [parse_value].
    replace (Ascii.eqb quote "n") with false by done.
    replace (Ascii.eqb quote "t") with false by done.
    replace (Ascii.eqb quote "f") with false by done.
    rewrite Ascii.eqb_refl, parse_string_escape. done.
  - destruct n as [|n]; [cbn in Hn; lia|]. cbn [print] in *.
    rewrite app_cons. cbn [parse_value].
    replace (Ascii.eqb "[" "n") with false by done.
    replace (Ascii.eqb "[" "t") with false by done.
    replace (Ascii.eqb "[" "f") with false by done.
    replace (Ascii.eqb "[" quote) with false by done.
    rewrite Ascii.eqb_refl.
    destruct l as [|v l]; [done|].
    assert (strip "]" (print_seq print "]" (v :: l) +:+ r) = None) as ->.
    { destruct (print_head v) as (c & s & Hv & Hc).
      destruct l; cbn [print_seq]; rewrite Hv, !app_cons; cbn [strip];
        by rewrite Hc. }
    rewrite parse_items_print; [done|done|done|done|].
    cbn [String.length] in Hn. lia.
  - destruct n as [|n]; [cbn in Hn; lia|]. cbn [print] in *.
    fold print_member in *.
    rewrite app_cons. cbn [parse_value].
    replace (Ascii.eqb "{" "n") with false by done.
    replace (Ascii.eqb "{" "t") with false by done.
    replace (Ascii.eqb "{" "f") with false by done.
    replace (Ascii.eqb "{" quote) with false by done.
    replace (Ascii.eqb "{" "[") with false by done.
    rewrite Ascii.eqb_refl.
    destruct fs as [|kv fs]; [done|].
    assert (strip "}" (print_seq print_member "}" (kv :: fs) +:+ r) = None) as ->.
    { destruct fs; cbn [print_seq]; unfold print_member, print_string;
        by rewrite !app_cons. }
    rewrite parse_members_print; [done|done|done|done|].
    cbn [String.length] in Hn. lia.
Qed.

Theorem parse_print v : parse_text (print v) = Some v.
Proof.
  unfold parse_text. rewrite <- (app_nil_r (print v)) at 2.
  by rewrite parse_value_print; [| |lia].
Qed.

Lemma reference_roundtrip : @codec_roundtrip platform.
Proof. intros v. apply parse_print. Qed.

Lemma reference_nonempty : @codec_nonempty platform.
Proof. intros v. apply print_nonempty. Qed.

End ReferenceFacts.

(** ** What every run preserves *)

Section Invariants.
Context `{Platform}.
Import RedisServer.

Lemma variants_cases (P : (request -> handler) -> Prop) :
  P Server.handle -> P Part000.handle -> P RedisServer.handle ->
  forall handle, handle ∈ variants -> P handle.
Proof.
  intros H1 H2 H3 handle Hin. apply list_elem_of_In in Hin.
  destruct Hin as [<-|[<-|[<-|[]]]]; done.
Qed.

Lemma Server_variant : Server.handle ∈ variants.
Proof. apply list_elem_of_here. Qed.

Lemma Part000_variant : Part000.handle ∈ variants.
Proof. apply list_elem_of_further, list_elem_of_here. Qed.

Lemma RedisServer_variant : RedisServer.handle ∈ variants.
Proof. do 2 apply list_elem_of_further. apply list_elem_of_here. Qed.

Lemma run_invariant (I : world -> Prop) handle (ok : request -> Prop) rs w :
  (forall r flt w, ok r -> I w -> I (handle r flt w).2) ->
  Forall (fun fr => ok fr.2) rs -> I w -> I (run handle rs w).
Proof.
  intros Hstep Hrs. revert w. induction Hrs as [|[flt r] rs Hr Hrs IH]; [done|].
  intros w Hw. cbn. apply IH. by apply Hstep.
Qed.

(** *** The list key *)

Lemma list_ok_empty : list_ok ∅.
Proof. intros s. by rewrite lookup_empty. Qed.

Lemma list_ok_insert_list (view : movie -> json) c r :
  list_ok (<["movies" := JSON_stringify (JArr (view <$> find_limit 10 c))]> r).
Proof.
  intros s. rewrite lookup_insert_eq. intros Hs. apply (inj Some) in Hs as <-.
  eexists. split; [done|]. rewrite length_fmap. apply find_limit_length.
Qed.

Lemma list_ok_insert_item movieId v r :
  list_ok r -> list_ok (<[movie_key movieId := v]> r).
Proof.
  intros Hr s. rewrite lookup_insert_ne by apply movie_key_not_list. apply Hr.
Qed.

Lemma list_ok_delete k r : list_ok r -> list_ok (delete k r).
Proof.
  intros Hr s. rewrite lookup_delete. case_decide; [done|]. apply Hr.
Qed.

Lemma list_ok_unless_failed failed f r :
  (list_ok r -> list_ok (f r)) -> list_ok r -> list_ok (unless_failed failed f r).
Proof. destruct failed; cbn; auto. Qed.

Lemma handle_list_ok handle r flt w :
  handle ∈ variants -> list_ok (redis w) -> list_ok (redis (handle r flt w).2).
Proof.
  intros Hin. revert handle Hin r. apply (variants_cases (fun handle =>
    forall r, list_ok (redis w) -> list_ok (redis (handle r flt w).2)));
    intros [|id|id title|id] Hw; cbn [Server.handle Part000.handle RedisServer.handle].
  - by destruct (Server_get_movies_effect flt w) as [_ ->].
  - by destruct (uncached_get_movie_effect id flt w) as [[_ ->] _].
  - by destruct (Server_patch_movie_effect id title flt w) as [-> _].
  - by destruct (Server_delete_movie_effect id flt w) as [-> _].
  - destruct (Part000_get_movies_effect flt w) as [_ [-> | ->]];
      [done | apply list_ok_insert_list].
  - by destruct (uncached_get_movie_effect id flt w) as [_ [_ ->]].
  - destruct (Part000_patch_movie_effect id title flt w)
      as [[_ ->]|(i & failed & _ & _ & ->)]; [done|].
    apply list_ok_unless_failed; [apply list_ok_delete | done].
  - destruct (Part000_delete_movie_effect id flt w)
      as [[_ ->]|(i & failed & _ & _ & ->)]; [done|].
    apply list_ok_unless_failed; [apply list_ok_delete | done].
  - destruct (RedisServer_get_movies_effect flt w) as [_ [-> | ->]];
      [done | apply list_ok_insert_list].
  - destruct (RedisServer_get_movie_effect id flt w)
      as [_ [-> | (i & m & _ & _ & _ & ->)]]; [done|].
    by apply list_ok_insert_item.
  - destruct (RedisServer_patch_movie_effect id title flt w)
      as [[_ ->]|(i & _ & _ & [-> | (m & fs & fd & _ & ->)])]; [done..|].
    apply list_ok_unless_failed; [apply list_ok_delete|].
    apply list_ok_unless_failed; [apply list_ok_insert_item | done].
  - destruct (RedisServer_delete_movie_effect id flt w)
      as [[_ ->]|(i & fi & fl & _ & _ & ->)]; [done|].
    apply list_ok_unless_failed; [apply list_ok_delete|].
    apply list_ok_unless_failed; [apply list_ok_delete | done].
Qed.

Lemma run_list_ok handle rs w :
  handle ∈ variants -> list_ok (redis w) -> list_ok (redis (run handle rs w)).
Proof.
  intros Hin. apply (run_invariant (fun w => list_ok (redis w)) handle (fun _ => True)).
  - intros r flt w' _. by apply handle_list_ok.
  - by apply Forall_true.
Qed.

Lemma Server_get_movies_outcome flt w :
  let o := (Server.get_movies flt w).1 in
  (flt (MongoFind 10) = None -> short_list o)
  /\ (short_list o \/ exists e, o = Response 500 (error_body e)).
Proof.
  assert (short_list (Response 200 (BJson (JArr (movie_json <$> take 10 (db w))))))
    as Hshort.
  { eexists. split; [done|]. rewrite length_fmap. apply (find_limit_length 10). }
  destruct (flt (MongoFind 10)) as [e|] eqn:Hd; split; try done.
  - right. exists e. by step_handler.
  - intros _. by step_handler.
  - left. by step_handler.
Qed.

Lemma cached_get_movies_outcome flt w :
  codec_roundtrip -> list_ok (redis w) ->
  forall get_movies,
    get_movies ∈ [Part000.get_movies; RedisServer.get_movies] ->
    let o := (get_movies flt w).1 in
    (flt (RedisGet "movies") = None -> flt (MongoFind 10) = None -> short_list o)
    /\ (short_list o \/ (exists e, o = Next e) \/ exists e, o = Unhandled e).
Proof.
  intros Hrt Hok get_movies Hin.
  assert (forall view : movie -> json,
    short_list (Response 200 (BJson (JArr (view <$> find_limit 10 (db w))))))
    as Hshort.
  { intros view. eexists. split; [done|].
    rewrite length_fmap. apply find_limit_length. }
  assert (forall view, list_miss get_movies view flt w ->
            short_list (get_movies flt w).1) as Hmiss.
  { intros view (w' & -> & _). apply Hshort. }
  assert (forall s v, list_hit get_movies flt w s v ->
            (get_movies flt w).1 = Response 200 (BJson v)) as Hhit.
  { by intros s v [-> _]. }
  assert (exists view,
    (flt (RedisGet "movies") = None -> truthy (redis w !! "movies") = None ->
     flt (MongoFind 10) = None -> list_miss get_movies view flt w)
    /\ (forall s v, flt (RedisGet "movies") = None ->
          redis w !! "movies" = Some s -> s <> EmptyString ->
          JSON_parse s = Some v -> list_hit get_movies flt w s v)
    /\ (forall e, flt (RedisGet "movies") = Some e -> (get_movies flt w).1 = Next e)
    /\ (forall e, flt (RedisGet "movies") = None ->
          truthy (redis w !! "movies") = None ->
          flt (MongoFind 10) = Some e -> (get_movies flt w).1 = Unhandled e))
    as (view & Hm & Hh & He & Hs).
  { apply list_elem_of_In in Hin. destruct Hin as [<-|[<-|[]]].
    - exists movie_json. split; [apply list_miss_Part000|].
      split; [apply list_hit_Part000|].
      split; intros; by step_handler.
    - exists (simple_json ∘ simplifyMovie). split; [apply list_miss_RedisServer|].
      split; [apply list_hit_RedisServer|].
      split; intros; by step_handler. }
  cbv zeta.
  destruct (flt (RedisGet "movies")) as [e|] eqn:Hg.
  { split; [done|]. right. left. exists e. by apply He. }
  destruct (truthy (redis w !! "movies")) as [s|] eqn:Ht.
  - apply truthy_Some in Ht as [Hs' Hne].
    destruct (Hok s Hs') as (l & -> & Hl).
    assert (short_list (get_movies flt w).1) as Hsl.
    { erewrite Hhit by (eapply Hh; eauto). by exists l. }
    by split; [|left].
  - destruct (flt (MongoFind 10)) as [e|] eqn:Hd.
    + split; [done|]. right. right. exists e. by apply Hs.
    + assert (short_list (get_movies flt w).1) by (eapply Hmiss, Hm; eauto).
      by split; [|left].
Qed.

(** C8.  From an empty cache and any collection, after any requests under
    any faults, the list endpoint of each variant answers 200 only with an
    array of at most ten entries, on the hit path as well as on the miss
    path, and it does answer so whenever its cache read and its store query
    do not fail. *)
Theorem list_has_at_most_ten
    (w0 : world) (rs : list (faults * request)) (flt : faults) :
  codec_roundtrip ->
  redis w0 = ∅ ->
  forall handle, handle ∈ variants ->
    let o := (handle GetMovies flt (run handle rs w0)).1 in
    (forall b, o = Response 200 b ->
               exists l, b = BJson (JArr l) /\ length l <= 10)
    /\ (flt (RedisGet "movies") = None -> flt (MongoFind 10) = None ->
        exists l, o = Response 200 (BJson (JArr l)) /\ length l <= 10).
Proof.
  intros Hrt Hempty handle Hin.
  assert (list_ok (redis (run handle rs w0))) as Hok.
  { apply run_list_ok; [done|]. rewrite Hempty. apply list_ok_empty. }
  revert Hok. generalize (run handle rs w0) as w. intros w Hok.
  assert (forall o, short_list o ->
            forall b, o = Response 200 b ->
                      exists l, b = BJson (JArr l) /\ length l <= 10) as Huse.
  { intros o (l & -> & Hl) b [= <-]. eauto. }
  apply list_elem_of_In in Hin.
  destruct Hin as [<-|[<-|[<-|[]]]]; cbn [Server.handle Part000.handle RedisServer.handle].
  - destruct (Server_get_movies_outcome flt w) as [Hgood Hany]. split.
    + destruct Hany as [Hs|[e He]]; [by apply Huse|].
      intros b Hb. rewrite He in Hb. discriminate.
    + intros _ Hd. by apply Hgood.
  - destruct (cached_get_movies_outcome flt w Hrt Hok Part000.get_movies)
      as [Hgood Hany]; [apply list_elem_of_here|]. split; [|done].
    destruct Hany as [Hs|[[e He]|[e He]]]; [by apply Huse|..];
      intros b Hb; rewrite He in Hb; discriminate.
  - destruct (cached_get_movies_outcome flt w Hrt Hok RedisServer.get_movies)
      as [Hgood Hany]; [apply list_elem_of_further, list_elem_of_here|].
    split; [|done].
    destruct Hany as [Hs|[[e He]|[e He]]]; [by apply Huse|..];
      intros b Hb; rewrite He in Hb; discriminate.
Qed.

End Invariants.

(** ** Updates and deletes that reach the store *)

Section Mutations.
Context `{Platform}.
Import RedisServer.

Lemma Server_delete_movie_done id i flt w :
  ObjectId id = Some i -> flt (MongoDeleteOne i) = None ->
  let r := Server.delete_movie id flt w in
  r.1 = Response 200 (BJson (DeleteResult_json (deleteOne i (db w)).2))
  /\ db r.2 = (deleteOne i (db w)).1
  /\ redis r.2 = redis w.
Proof.
  intros Hi Hd. step_handler. by destruct (deleteOne i (db w)).
Qed.

Lemma Part000_delete_movie_done id i flt w :
  ObjectId id = Some i -> flt (MongoDeleteOne i) = None ->
  let r := Part000.delete_movie id flt w in
  r.1 = Response 200 (BJson (DeleteResult_json (deleteOne i (db w)).2))
  /\ db r.2 = (deleteOne i (db w)).1
  /\ redis r.2 = unless_failed (fails flt (RedisDel "movies")) (delete "movies")
                   (redis w).
Proof.
  intros Hi Hd. step_handler. unfold fails.
  destruct (deleteOne i (db w)); reduce_handler.
  by destruct (flt (RedisDel "movies")).
Qed.

Lemma RedisServer_delete_movie_done movieId i flt w :
  ObjectId movieId = Some i -> flt (MongoDeleteOne i) = None ->
  let r := delete_movie movieId flt w in
  r.1 = Response 200 (BJson (DeleteResult_json (deleteOne i (db w)).2))
  /\ db r.2 = (deleteOne i (db w)).1
  /\ redis r.2 =
       unless_failed (fails flt (RedisDel "movies")) (delete "movies")
         (unless_failed (fails flt (RedisDel (movie_key movieId)))
            (delete (movie_key movieId)) (redis w)).
Proof.
  intros Hi Hd. step_handler. unfold fails.
  destruct (deleteOne i (db w)); reduce_handler.
  destruct (flt (RedisDel (movie_key movieId))); reduce_handler;
    by destruct (flt (RedisDel "movies")).
Qed.

Lemma Server_patch_movie_done id i title flt w :
  ObjectId id = Some i -> flt (MongoUpdateOne i (bson_value title)) = None ->
  let u := updateOne i (bson_value title) (db w) in
  let r := Server.patch_movie id title flt w in
  r.1 = Response 200 (BJson (UpdateResult_json u.2))
  /\ db r.2 = u.1
  /\ redis r.2 = redis w.
Proof.
  intros Hi Hd. step_handler. by destruct (updateOne i _ (db w)).
Qed.

Lemma Part000_patch_movie_done id i title flt w :
  ObjectId id = Some i -> flt (MongoUpdateOne i (bson_value title)) = None ->
  let u := updateOne i (bson_value title) (db w) in
  let r := Part000.patch_movie id title flt w in
  r.1 = Response 200 (BJson (UpdateResult_json u.2))
  /\ db r.2 = u.1
  /\ redis r.2 = unless_failed (fails flt (RedisDel "movies")) (delete "movies")
                   (redis w).
Proof.
  intros Hi Hd. step_handler. unfold fails.
  destruct (updateOne i _ (db w)); reduce_handler.
  by destruct (flt (RedisDel "movies")).
Qed.

(** The write-through of redisServer.js, for an update that matched [m]. *)
Lemma RedisServer_patch_movie_done movieId i m title flt w :
  ObjectId movieId = Some i ->
  findOne i (db w) = Some m ->
  flt (MongoUpdateOne i (bson_value title)) = None ->
  flt (MongoFindOne i) = None ->
  let u := updateOne i (bson_value title) (db w) in
  let text := JSON_stringify (simple_json (simplifyMovie (set_title (bson_value title) m))) in
  let r := patch_movie movieId title flt w in
  r.1 = Response 200 (BJson (UpdateResult_json u.2))
  /\ matchedCount u.2 = 1
  /\ db r.2 = u.1
  /\ redis r.2 =
       unless_failed (fails flt (RedisDel "movies")) (delete "movies")
         (unless_failed (fails flt (RedisSet (movie_key movieId) text))
            (<[movie_key movieId := text]>) (redis w)).
Proof.
  intros Hi Hf Hd Hd'.
  pose proof (updateOne_matched i (bson_value title) (db w)) as Hmc.
  pose proof (updateOne_findOne i (bson_value title) (db w)) as Hfo.
  rewrite Hf in Hmc, Hfo. cbn in Hfo. cbv zeta.
  destruct (updateOne i (bson_value title) (db w)) as [c r] eqn:Hu.
  cbn [fst snd] in *. step_handler. rewrite ?Hmc. step_handler.
  unfold fails.
  destruct (flt (RedisSet _ _)); reduce_handler;
    by destruct (flt (RedisDel "movies")).
Qed.

End Mutations.

(** ** Reads after a delete *)

Section AfterDelete.
Context `{Platform}.
Import RedisServer.

(** No request adds a document. *)
Lemma handle_absent handle i r flt w :
  handle ∈ variants ->
  findOne i (db w) = None -> findOne i (db (handle r flt w).2) = None.
Proof.
  intros Hin. revert handle Hin r. apply (variants_cases (fun handle =>
    forall r, findOne i (db w) = None -> findOne i (db (handle r flt w).2) = None));
    intros [|id|id title|id] Hw; cbn [Server.handle Part000.handle handle].
  - by destruct (Server_get_movies_effect flt w) as [-> _].
  - by destruct (uncached_get_movie_effect id flt w) as [[-> _] _].
  - destruct (Server_patch_movie_effect id title flt w) as [_ [-> | (j & _ & ->)]];
      [done | by apply updateOne_absent].
  - destruct (Server_delete_movie_effect id flt w) as [_ [-> | (j & _ & ->)]];
      [done | by apply deleteOne_absent].
  - by destruct (Part000_get_movies_effect flt w) as [-> _].
  - by destruct (uncached_get_movie_effect id flt w) as [_ [-> _]].
  - destruct (Part000_patch_movie_effect id title flt w)
      as [[-> _]|(j & failed & _ & -> & _)]; [done | by apply updateOne_absent].
  - destruct (Part000_delete_movie_effect id flt w)
      as [[-> _]|(j & failed & _ & -> & _)]; [done | by apply deleteOne_absent].
  - by destruct (RedisServer_get_movies_effect flt w) as [-> _].
  - by destruct (RedisServer_get_movie_effect id flt w) as [-> _].
  - destruct (RedisServer_patch_movie_effect id title flt w)
      as [[-> _]|(j & _ & -> & _)]; [done | by apply updateOne_absent].
  - destruct (RedisServer_delete_movie_effect id flt w)
      as [[-> _]|(j & fi & fl & _ & -> & _)]; [done | by apply deleteOne_absent].
Qed.

(** The unique index survives every request. *)
Lemma handle_unique_ids handle r flt w :
  handle ∈ variants ->
  unique_ids (db w) -> unique_ids (db (handle r flt w).2).
Proof.
  intros Hin. revert handle Hin r. apply (variants_cases (fun handle =>
    forall r, unique_ids (db w) -> unique_ids (db (handle r flt w).2)));
    intros [|id|id title|id] Hw; cbn [Server.handle Part000.handle handle].
  - by destruct (Server_get_movies_effect flt w) as [-> _].
  - by destruct (uncached_get_movie_effect id flt w) as [[-> _] _].
  - destruct (Server_patch_movie_effect id title flt w) as [_ [-> | (j & _ & ->)]];
      [done | by apply updateOne_unique].
  - destruct (Server_delete_movie_effect id flt w) as [_ [-> | (j & _ & ->)]];
      [done | by apply deleteOne_unique].
  - by destruct (Part000_get_movies_effect flt w) as [-> _].
  - by destruct (uncached_get_movie_effect id flt w) as [_ [-> _]].
  - destruct (Part000_patch_movie_effect id title flt w)
      as [[-> _]|(j & failed & _ & -> & _)]; [done | by apply updateOne_unique].
  - destruct (Part000_delete_movie_effect id flt w)
      as [[-> _]|(j & failed & _ & -> & _)]; [done | by apply deleteOne_unique].
  - by destruct (RedisServer_get_movies_effect flt w) as [-> _].
  - by destruct (RedisServer_get_movie_effect id flt w) as [-> _].
  - destruct (RedisServer_patch_movie_effect id title flt w)
      as [[-> _]|(j & _ & -> & _)]; [done | by apply updateOne_unique].
  - destruct (RedisServer_delete_movie_effect id flt w)
      as [[-> _]|(j & fi & fl & _ & -> & _)]; [done | by apply deleteOne_unique].
Qed.

Lemma run_unique_ids handle rs w :
  handle ∈ variants -> unique_ids (db w) -> unique_ids (db (run handle rs w)).
Proof.
  intros Hin.
  apply (run_invariant (fun w => unique_ids (db w)) handle (fun _ => True)).
  - intros r flt w' _. by apply handle_unique_ids.
  - by apply Forall_true.
Qed.

Lemma lookup_unless_failed_delete failed k k' (r : gmap string string) :
  r !! k = None -> unless_failed failed (delete k') r !! k = None.
Proof.
  intros Hr. destruct failed; cbn; [done|].
  rewrite lookup_delete. by case_decide.
Qed.

(** In redisServer.js, a movie that is neither stored nor cached under
    [movieId] stays so. *)
Lemma handle_gone movieId i r flt w :
  ObjectId movieId = Some i ->
  gone movieId i w -> gone movieId i (handle r flt w).2.
Proof.
  intros Hi [Hdb Hr]. split; [apply handle_absent; [apply RedisServer_variant | done]|].
  destruct r as [|id|id title|id]; cbn [handle].
  - destruct (RedisServer_get_movies_effect flt w) as [_ [-> | ->]]; [done|].
    by rewrite lookup_insert_ne by (symmetry; apply movie_key_not_list).
  - destruct (RedisServer_get_movie_effect id flt w)
      as [_ [-> | (j & m & Hj & Hm & _ & ->)]]; [done|].
    destruct (decide (id = movieId)) as [->|Hne].
    + congruence.
    + rewrite lookup_insert_ne; [done|]. by intros ?%movie_key_inj.
  - destruct (RedisServer_patch_movie_effect id title flt w)
      as [[_ ->]|(j & Hj & Hdb' & [-> | (m & fs & fd & Hm & ->)])]; [done..|].
    apply lookup_unless_failed_delete.
    destruct fs; cbn; [done|].
    destruct (decide (id = movieId)) as [->|Hne].
    + rewrite Hdb' in Hm. assert (j = i) as -> by congruence.
      by rewrite updateOne_absent in Hm.
    + rewrite lookup_insert_ne; [done|]. by intros ?%movie_key_inj.
  - destruct (RedisServer_delete_movie_effect id flt w)
      as [[_ ->]|(j & fi & fl & _ & _ & ->)]; [done|].
    by do 2 apply lookup_unless_failed_delete.
Qed.

(** C3, as the code has it.  In every variant, once the delete handler has
    removed the movie from the store and its cache commands for the
    per-item key did not fail, every later get-by-id with the same
    identifier string answers 404 Not found, whatever requests, failing or
    not, are served in between; the get itself is assumed not to fail. *)
Theorem deleted_movie_is_not_found
    (id : string) (i : oid) (w : world) (flt_d flt_g : faults)
    (rs : list (faults * request)) :
  ObjectId id = Some i ->
  unique_ids (db w) ->
  flt_d (MongoDeleteOne i) = None ->
  flt_d (RedisDel (movie_key id)) = None ->
  flt_g (RedisGet (movie_key id)) = None ->
  flt_g (MongoFindOne i) = None ->
  forall handle, handle ∈ variants ->
    let w1 := (handle (DeleteMovie id) flt_d w).2 in
    findOne i (db w1) = None
    /\ (handle (GetMovie id) flt_g (run handle rs w1)).1
       = Response 404 (BText "Not found").
Proof.
  intros Hi Huniq Hd Hdel Hg Hf handle Hin. cbv zeta.
  assert (findOne i (db (handle (DeleteMovie id) flt_d w).2) = None) as Habs.
  { revert handle Hin. apply variants_cases; cbn [Server.handle Part000.handle
      RedisServer.handle].
    - destruct (Server_delete_movie_done id i flt_d w Hi Hd) as (_ & -> & _).
      by apply deleteOne_findOne.
    - destruct (Part000_delete_movie_done id i flt_d w Hi Hd) as (_ & -> & _).
      by apply deleteOne_findOne.
    - destruct (RedisServer_delete_movie_done id i flt_d w Hi Hd) as (_ & -> & _).
      by apply deleteOne_findOne. }
  split; [done|].
  assert (findOne i (db (run handle rs (handle (DeleteMovie id) flt_d w).2)) = None)
    as Hlater.
  { apply (run_invariant (fun w => findOne i (db w) = None) handle (fun _ => True));
      [|by apply Forall_true|done].
    intros r flt w' _. by apply handle_absent. }
  revert handle Hin Habs Hlater. apply (variants_cases (fun handle =>
    findOne i (db (handle (DeleteMovie id) flt_d w).2) = None ->
    findOne i (db (run handle rs (handle (DeleteMovie id) flt_d w).2)) = None ->
    (handle (GetMovie id) flt_g (run handle rs (handle (DeleteMovie id) flt_d w).2)).1
    = Response 404 (BText "Not found")));
    intros Habs Hlater; cbn [Server.handle Part000.handle RedisServer.handle] in *.
  - destruct (get_movie_uncached id i flt_g
                (run Server.handle rs (Server.delete_movie id flt_d w).2) Hi Hf)
      as [-> _]. cbn. by rewrite Hlater.
  - destruct (get_movie_uncached id i flt_g
                (run Part000.handle rs (Part000.delete_movie id flt_d w).2) Hi Hf)
      as [_ ->]. cbn. by rewrite Hlater.
  - assert (gone id i (run handle rs (delete_movie id flt_d w).2)) as [_ Hgone].
    { apply (run_invariant (gone id i) handle (fun _ => True));
        [|by apply Forall_true|].
      - intros r flt w' _. by apply handle_gone.
      - split; [done|].
        destruct (RedisServer_delete_movie_done id i flt_d w Hi Hd) as (_ & _ & ->).
        apply lookup_unless_failed_delete. unfold fails. rewrite Hdel. cbn.
        apply lookup_delete_eq. }
    rewrite (get_movie_absent id i flt_g _ Hg); [done| |done..].
    by rewrite Hgone.
Qed.

End AfterDelete.

(** ** Reads after an update *)

Section AfterUpdate.
Context `{Platform}.
Import RedisServer.

(** A request that does not target the movie [i] leaves its document as
    it is. *)
Lemma handle_kept handle i m r flt w :
  handle ∈ variants -> ~ mutates i r ->
  findOne i (db w) = Some m -> findOne i (db (handle r flt w).2) = Some m.
Proof.
  intros Hin. revert handle Hin r. apply (variants_cases (fun handle =>
    forall r, ~ mutates i r -> findOne i (db w) = Some m ->
              findOne i (db (handle r flt w).2) = Some m));
    intros [|id|id title|id] Hr Hw;
    cbn [Server.handle Part000.handle handle mutates] in *.
  - by destruct (Server_get_movies_effect flt w) as [-> _].
  - by destruct (uncached_get_movie_effect id flt w) as [[-> _] _].
  - destruct (Server_patch_movie_effect id title flt w) as [_ [-> | (j & Hj & ->)]];
      [done|]. rewrite updateOne_findOne_ne; [done | congruence].
  - destruct (Server_delete_movie_effect id flt w) as [_ [-> | (j & Hj & ->)]];
      [done|]. rewrite deleteOne_findOne_ne; [done | congruence].
  - by destruct (Part000_get_movies_effect flt w) as [-> _].
  - by destruct (uncached_get_movie_effect id flt w) as [_ [-> _]].
  - destruct (Part000_patch_movie_effect id title flt w)
      as [[-> _]|(j & failed & Hj & -> & _)]; [done|].
    rewrite updateOne_findOne_ne; [done | congruence].
  - destruct (Part000_delete_movie_effect id flt w)
      as [[-> _]|(j & failed & Hj & -> & _)]; [done|].
    rewrite deleteOne_findOne_ne; [done | congruence].
  - by destruct (RedisServer_get_movies_effect flt w) as [-> _].
  - by destruct (RedisServer_get_movie_effect id flt w) as [-> _].
  - destruct (RedisServer_patch_movie_effect id title flt w)
      as [[-> _]|(j & Hj & -> & _)]; [done|].
    rewrite updateOne_findOne_ne; [done | congruence].
  - destruct (RedisServer_delete_movie_effect id flt w)
      as [[-> _]|(j & fi & fl & Hj & -> & _)]; [done|].
    rewrite deleteOne_findOne_ne; [done | congruence].
Qed.

Lemma lookup_unless_failed_other failed (k : string)
    (f : gmap string string -> gmap string string) (r : gmap string string) :
  (f r !! k = r !! k) -> unless_failed failed f r !! k = r !! k.
Proof. by destruct failed. Qed.

(** In redisServer.js, the per-item entry of [movieId] stays absent or in
    step with the stored document. *)
Lemma handle_fresh movieId i m r flt w :
  ObjectId movieId = Some i -> ~ mutates i r ->
  fresh movieId i m w -> fresh movieId i m (handle r flt w).2.
Proof.
  intros Hi Hr [Hdb Hc]. split; [apply handle_kept; [apply RedisServer_variant | done..]|].
  assert (forall id', ObjectId id' <> Some i ->
            movie_key id' <> movie_key movieId) as Hother.
  { intros id' Hne ?%movie_key_inj. congruence. }
  destruct r as [|id|id title|id]; cbn [handle mutates] in *.
  - destruct (RedisServer_get_movies_effect flt w) as [_ [-> | ->]]; [done|].
    by rewrite lookup_insert_ne by (symmetry; apply movie_key_not_list).
  - destruct (RedisServer_get_movie_effect id flt w)
      as [_ [-> | (j & m' & Hj & Hm' & _ & ->)]]; [done|].
    destruct (decide (id = movieId)) as [->|Hne].
    + right. rewrite lookup_insert_eq. do 3 f_equal. congruence.
    + rewrite lookup_insert_ne; [done|]. by intros ?%movie_key_inj.
  - destruct (RedisServer_patch_movie_effect id title flt w)
      as [[_ ->]|(j & Hj & _ & [-> | (m' & fs & fd & _ & ->)])]; [done..|].
    rewrite lookup_unless_failed_other.
    + rewrite lookup_unless_failed_other; [done|].
      apply lookup_insert_ne, Hother. congruence.
    + apply lookup_delete_ne. symmetry. apply movie_key_not_list.
  - destruct (RedisServer_delete_movie_effect id flt w)
      as [[_ ->]|(j & fi & fl & Hj & _ & ->)]; [done|].
    rewrite lookup_unless_failed_other.
    + rewrite lookup_unless_failed_other; [done|].
      apply lookup_delete_ne, Hother. congruence.
    + apply lookup_delete_ne. symmetry. apply movie_key_not_list.
Qed.

Lemma title_of_document t m :
  json_field "title" (movie_json (set_title t m)) = Some t.
Proof. cbn. apply get_prop_set_prop. Qed.

Lemma title_of_projection t m :
  json_field "title" (simple_json (simplifyMovie (set_title t m))) = Some t.
Proof.
  unfold simple_json, simplifyMovie. cbn [s_id s_name s_title props set_title].
  rewrite get_prop_set_prop. cbn [json_field get_prop].
  replace (String.eqb "title" "id") with false by done.
  by destruct (get_prop "name" _).
Qed.

(** What a get-by-id of redisServer.js answers while the entry is fresh. *)
Lemma get_movie_fresh movieId i m flt w :
  codec_roundtrip -> ObjectId movieId = Some i -> fresh movieId i m w ->
  flt (RedisGet (movie_key movieId)) = None -> flt (MongoFindOne i) = None ->
  (get_movie movieId flt w).1 = Response 200 (BJson (simple_json (simplifyMovie m))).
Proof.
  intros Hrt Hi [Hdb Hc] Hg Hf.
  destruct (truthy (redis w !! movie_key movieId)) as [s|] eqn:Ht.
  - apply truthy_Some in Ht as [Hs Hne].
    destruct Hc as [Hc|Hc]; [congruence|].
    rewrite (get_movie_hit movieId s (simple_json (simplifyMovie m))); try done.
    assert (s = JSON_stringify (simple_json (simplifyMovie m))) as -> by congruence.
    apply Hrt.
  - by destruct (get_movie_miss movieId i m flt w) as (w' & -> & _).
Qed.

(** C2, as the code has it.  In every variant, after an update that
    reached the store for a stored movie, and whose write-through of the
    per-item entry did not fail, every later get-by-id with the same
    identifier string answers 200 with a document whose title is the new
    one, whatever requests, failing or not, are served in between, as long
    as none of them updates or deletes that movie again; the get itself is
    assumed not to fail. *)
Theorem updated_title_is_served
    (id : string) (i : oid) (m : movie) (title : option json) (w : world)
    (flt_p flt_g : faults) (rs : list (faults * request)) :
  codec_roundtrip ->
  ObjectId id = Some i ->
  findOne i (db w) = Some m ->
  flt_p (MongoUpdateOne i (bson_value title)) = None ->
  flt_p (MongoFindOne i) = None ->
  (forall text, flt_p (RedisSet (movie_key id) text) = None) ->
  Forall (fun fr => ~ mutates i fr.2) rs ->
  flt_g (RedisGet (movie_key id)) = None ->
  flt_g (MongoFindOne i) = None ->
  forall handle, handle ∈ variants ->
    let r1 := handle (PatchMovie id title) flt_p w in
    (exists summary,
        r1.1 = Response 200 (BJson summary)
        /\ json_field "matchedCount" summary = Some (JNum 1))
    /\ exists doc,
        (handle (GetMovie id) flt_g (run handle rs r1.2)).1
        = Response 200 (BJson doc)
        /\ json_field "title" doc = Some (bson_value title).
Proof.
  intros Hrt Hi Hm Hu Hf Hset Hrs Hg Hf' handle Hin. cbv zeta.
  set (t := bson_value title) in *.
  pose proof (updateOne_matched i t (db w)) as Hmc. rewrite Hm in Hmc.
  pose proof (updateOne_findOne i t (db w)) as Hfo. rewrite Hm in Hfo. cbn in Hfo.
  assert (json_field "matchedCount" (UpdateResult_json (updateOne i t (db w)).2)
          = Some (JNum 1)) as Hsum.
  { cbn. by rewrite Hmc. }
  revert handle Hin. apply variants_cases;
    cbn [Server.handle Part000.handle RedisServer.handle].
  - destruct (Server_patch_movie_done id i title flt_p w Hi Hu) as (Ho & Hdb & _).
    split; [by eexists|]. exists (movie_json (set_title t m)).
    split; [|apply title_of_document].
    destruct (get_movie_uncached id i flt_g
                (run Server.handle rs (Server.patch_movie id title flt_p w).2) Hi Hf')
      as [-> _]. cbn [fst].
    rewrite (run_invariant (fun w => findOne i (db w) = Some (set_title t m))
               Server.handle (fun r => ~ mutates i r) rs); try done.
    + intros r flt w' Hr. apply handle_kept; [apply Server_variant | done].
    + by rewrite Hdb.
  - destruct (Part000_patch_movie_done id i title flt_p w Hi Hu) as (Ho & Hdb & _).
    split; [by eexists|]. exists (movie_json (set_title t m)).
    split; [|apply title_of_document].
    destruct (get_movie_uncached id i flt_g
                (run Part000.handle rs (Part000.patch_movie id title flt_p w).2) Hi Hf')
      as [_ ->]. cbn [fst].
    rewrite (run_invariant (fun w => findOne i (db w) = Some (set_title t m))
               Part000.handle (fun r => ~ mutates i r) rs); try done.
    + intros r flt w' Hr. apply handle_kept; [apply Part000_variant | done].
    + by rewrite Hdb.
  - destruct (RedisServer_patch_movie_done id i m title flt_p w Hi Hm Hu Hf)
      as (Ho & _ & Hdb & Hredis).
    split; [by eexists|]. exists (simple_json (simplifyMovie (set_title t m))).
    split; [|apply title_of_projection].
    apply (get_movie_fresh id i); try done.
    apply (run_invariant (fresh id i (set_title t m)) handle
             (fun r => ~ mutates i r)); [|done|].
    + intros r flt w' Hr. by apply handle_fresh.
    + split; [by rewrite Hdb|]. right. rewrite Hredis.
      rewrite lookup_unless_failed_other
        by (apply lookup_delete_ne; symmetry; apply movie_key_not_list).
      unfold fails. rewrite Hset. cbn. apply lookup_insert_eq.
Qed.

End AfterUpdate.

(** ** The invalidation policy, and read-through of one movie *)

Section Policy.
Context `{Platform}.
Import RedisServer.

(** C1, as the code has it.  For a stored movie and cache commands that do
    not fail: a delete that reached the store deletes the per-item key of
    the request's identifier string and the list key in redisServer.js,
    and the list key in part_000; an update that reached the store deletes
    the list key in both, and in redisServer.js overwrites the per-item key
    with the serialized projection of the updated document instead of
    deleting it; server.js leaves the cache alone. *)
Theorem invalidation_as_implemented
    (id : string) (i : oid) (m : movie) (title : option json)
    (flt : faults) (w : world) :
  ObjectId id = Some i ->
  findOne i (db w) = Some m ->
  (forall k, flt (RedisDel k) = None) ->
  (forall k v, flt (RedisSet k v) = None) ->
  (flt (MongoDeleteOne i) = None ->
   invalidated id (delete_movie id flt w).2
   /\ redis (Part000.delete_movie id flt w).2 = delete "movies" (redis w)
   /\ redis (Server.delete_movie id flt w).2 = redis w)
  /\ (flt (MongoUpdateOne i (bson_value title)) = None ->
      flt (MongoFindOne i) = None ->
      let w' := (patch_movie id title flt w).2 in
      let updated := set_title (bson_value title) m in
      redis w' !! "movies" = None
      /\ redis w' !! movie_key id
         = Some (JSON_stringify (simple_json (simplifyMovie updated)))
      /\ findOne i (db w') = Some updated
      /\ redis (Part000.patch_movie id title flt w).2 = delete "movies" (redis w)
      /\ redis (Server.patch_movie id title flt w).2 = redis w).
Proof.
  intros Hi Hm Hdel Hset. split.
  - intros Hd.
    destruct (RedisServer_delete_movie_done id i flt w Hi Hd) as (_ & _ & Hr).
    destruct (Part000_delete_movie_done id i flt w Hi Hd) as (_ & _ & Hr').
    destruct (Server_delete_movie_done id i flt w Hi Hd) as (_ & _ & Hr'').
    unfold fails in *. rewrite !Hdel in *. cbn in Hr, Hr'.
    split; [|done]. unfold invalidated. rewrite Hr. split.
    + rewrite lookup_delete_ne by (symmetry; apply movie_key_not_list).
      apply lookup_delete_eq.
    + apply lookup_delete_eq.
  - intros Hu Hf.
    destruct (RedisServer_patch_movie_done id i m title flt w Hi Hm Hu Hf)
      as (_ & _ & Hdb & Hr).
    destruct (Part000_patch_movie_done id i title flt w Hi Hu) as (_ & _ & Hr').
    destruct (Server_patch_movie_done id i title flt w Hi Hu) as (_ & _ & Hr'').
    unfold fails in *. rewrite ?Hdel, ?Hset in *. cbn in Hr, Hr'.
    cbv zeta. rewrite Hr, Hdb. repeat split; try done.
    + apply lookup_delete_eq.
    + rewrite lookup_delete_ne by (symmetry; apply movie_key_not_list).
      apply lookup_insert_eq.
    + rewrite updateOne_findOne. by rewrite Hm.
Qed.

(** C5, as the code has it.  In redisServer.js, for a stored movie without
    a per-item entry and when nothing fails, the first get-by-id answers
    with the projection of the document and issues exactly one cache [set],
    of its text, and a second get-by-id with the same identifier string
    gives the same answer without a call to the store.  The get-by-id of
    server.js and of part_000 neither reads nor writes the cache and calls
    the store every time. *)
Theorem read_through_per_item
    (id : string) (i : oid) (m : movie) (w : world) :
  codec_roundtrip -> codec_nonempty ->
  ObjectId id = Some i ->
  findOne i (db w) = Some m ->
  redis w !! movie_key id = None ->
  read_through get_movie (simple_json ∘ simplifyMovie) id m w
  /\ forall flt w', flt (MongoFindOne i) = None ->
       always_from_store Server.get_movie id i flt w'
       /\ always_from_store Part000.get_movie id i flt w'.
Proof.
  intros Hrt Hne Hi Hm Hc. split.
  - unfold read_through. cbv zeta. cbn [compose].
    destruct (get_movie_miss id i m no_faults w) as (w1 & Hrun & Hs & Hdb & Hr);
      try done; [by rewrite Hc|].
    rewrite Hrun. cbn [fst snd]. cbn [no_faults] in Hr, Hs.
    set (text := JSON_stringify (simple_json (simplifyMovie m))) in *.
    split; [done|]. split; [exists (movie_key id); by rewrite Hs|].
    rewrite (get_movie_hit id text (simple_json (simplifyMovie m)));
      [|done| |apply Hne|apply Hrt].
    + split; [done|]. cbn [snd]. by rewrite since_logged.
    + rewrite Hr. apply lookup_insert_eq.
  - intros flt w' Hf. unfold always_from_store.
    destruct (get_movie_uncached id i flt w' Hi Hf) as [-> ->]. cbn [snd].
    by rewrite since_logged.
Qed.

End Policy.

(** * The properties on the reference platform *)

Section Examples.
Import Reference ReferenceFacts.
#[local] Existing Instance platform.

Lemma unique_ids_w0 : unique_ids (db w0).
Proof.
  unfold unique_ids. cbn. apply NoDup_cons. split; [|apply NoDup_singleton].
  by intros [=]%list_elem_of_singleton.
Qed.

(** ** C7 *)

Lemma list_read_error_propagates_witness :
  redis_down (RedisGet "movies") = Some ECONNREFUSED
  /\ Part000.get_movies redis_down w0
     = (Next ECONNREFUSED,
        logged [RedisGet "movies";
                ConsoleError ("Error fetching movies from Redis: "
                              +:+ error_toString ECONNREFUSED)] w0)
  /\ RedisServer.get_movies redis_down w0
     = (Next ECONNREFUSED,
        logged [RedisGet "movies";
                ConsoleError ("Error fetching movies from Redis: "
                              +:+ error_toString ECONNREFUSED)] w0).
Proof.
  split; [reflexivity|].
  destruct (list_read_error_propagates redis_down w0 ECONNREFUSED eq_refl)
    as (Hlist & Hitem & _).
  split; [exact Hlist | exact Hitem].
Defined.

(** ** C6 *)

Lemma list_read_through_witness :
  list_miss Part000.get_movies movie_json no_faults w0
  /\ list_miss RedisServer.get_movies (simple_json ∘ simplifyMovie) no_faults w0
  /\ list_hit RedisServer.get_movies no_faults w_listed
       (JSON_stringify (JArr [blacksmith_projection;
                              JObj [("id", JStr robbery_id);
                                    ("title", JStr "The Great Train Robbery")]]))
       (JArr [blacksmith_projection;
              JObj [("id", JStr robbery_id);
                    ("title", JStr "The Great Train Robbery")]]).
Proof.
  destruct (list_read_through no_faults w0 eq_refl) as [_ Hmiss].
  destruct (Hmiss eq_refl eq_refl) as [Hmiss1 Hmiss2].
  destruct (list_read_through no_faults w_listed eq_refl) as [Hhit _].
  split; [exact Hmiss1|]. split; [exact Hmiss2|].
  refine (proj2 (Hhit _ _ _ _ _)).
  - reflexivity.
  - discriminate.
  - reflexivity.
Defined.

(** ** C10 *)

Lemma set_failure_only_logged_witness :
  (forall k v, set_fails (RedisSet k v) = Some ECONNREFUSED)
  /\ (exists w',
        Part000.get_movies set_fails w0
        = (Response 200 (BJson (JArr [movie_json blacksmith; movie_json robbery])), w')
        /\ redis w' = redis w0)
  /\ (exists w',
        RedisServer.get_movie blacksmith_id set_fails w0
        = (Response 200 (BJson blacksmith_projection), w')
        /\ redis w' = redis w0).
Proof.
  assert (forall k v, set_fails (RedisSet k v) = Some ECONNREFUSED) as Hset
    by (intros k v; reflexivity).
  split; [exact Hset|].
  destruct (set_failure_only_logged set_fails w0 ECONNREFUSED Hset) as [Hlist Hitem].
  split.
  - destruct (Hlist eq_refl eq_refl eq_refl Part000.get_movies movie_json)
      as (w' & Hrun & _ & Hr & _).
    + apply list_elem_of_here.
    + exists w'. split; [exact Hrun | exact Hr].
  - destruct (Hitem blacksmith_id blacksmith_id blacksmith
                eq_refl eq_refl eq_refl eq_refl eq_refl)
      as (w' & Hrun & _ & Hr & _).
    exists w'. split; [exact Hrun | exact Hr].
Defined.

(** ** C9 *)

Lemma unmatched_mutation_is_200_witness :
  ObjectId unknown_id = Some unknown_id
  /\ findOne unknown_id (db w0) = None
  /\ (exists w',
        RedisServer.patch_movie unknown_id (Some (JStr "Anvil")) no_faults w0
        = (Response 200
             (BJson (UpdateResult_json {| matchedCount := 0; modifiedCount := 0 |})),
           w'))
  /\ (exists w',
        Server.delete_movie unknown_id no_faults w0
        = (Response 200 (BJson (DeleteResult_json {| deletedCount := 0 |})), w')).
Proof.
  split; [reflexivity|]. split; [reflexivity|].
  destruct (unmatched_mutation_is_200 (H := platform) unknown_id unknown_id (Some (JStr "Anvil"))
              no_faults w0 eq_refl eq_refl) as [Hpatch Hdelete].
  split.
  - destruct (Hpatch eq_refl RedisServer.patch_movie) as [(w' & Hrun & _) _].
    + apply list_elem_of_further, list_elem_of_further, list_elem_of_here.
    + exists w'. exact Hrun.
  - destruct (Hdelete eq_refl Server.delete_movie) as [(w' & Hrun & _) _].
    + apply list_elem_of_here.
    + exists w'. exact Hrun.
Defined.

(** ** C8 *)

Lemma list_has_at_most_ten_witness :
  redis w0 = ∅
  /\ (exists l,
        (Server.get_movies no_faults (run Server.handle traffic w0)).1
        = Response 200 (BJson (JArr l)) /\ length l <= 10)
  /\ (exists l,
        (Part000.get_movies no_faults (run Part000.handle traffic w0)).1
        = Response 200 (BJson (JArr l)) /\ length l <= 10)
  /\ (exists l,
        (RedisServer.get_movies no_faults (run RedisServer.handle traffic w0)).1
        = Response 200 (BJson (JArr l)) /\ length l <= 10).
Proof.
  pose proof (list_has_at_most_ten w0 traffic no_faults reference_roundtrip eq_refl)
    as Hten.
  split; [reflexivity|]. split; [|split].
  - apply (proj2 (Hten Server.handle Server_variant)); reflexivity.
  - apply (proj2 (Hten Part000.handle Part000_variant)); reflexivity.
  - apply (proj2 (Hten RedisServer.handle RedisServer_variant)); reflexivity.
Defined.

(** ** C4 *)

Lemma rejected_identifier_is_500_witness :
  ObjectId "tt0000005" = None
  /\ Server.get_movie "tt0000005" no_faults w0
     = (Response 500 (error_body Reference.BSONError), w0)
  /\ RedisServer.delete_movie "tt0000005" no_faults w_read
     = (Response 500 (error_body Reference.BSONError), w_read).
Proof.
  split; [reflexivity|]. split.
  - pose proof (rejected_identifier_is_500 "tt0000005" None no_faults w0 eq_refl)
      as Hall.
    apply Forall_cons in Hall as [[Hget _] _]. exact Hget.
  - pose proof (rejected_identifier_is_500 "tt0000005" None no_faults w_read eq_refl)
      as Hall.
    do 7 apply Forall_cons in Hall as [_ Hall].
    apply Forall_cons in Hall as [[Hdelete _] _]. exact Hdelete.
Defined.

(** C4 as stated fails: the identifier is rejected, and server.js answers
    500, which is not a client error. *)
Lemma rejected_identifier_is_not_4xx :
  ObjectId "tt0000005" = None
  /\ (Server.get_movie "tt0000005" no_faults w0).1
     = Response 500 (BJson (JObj [("error", JStr (message Reference.BSONError))]))
  /\ ~ client_error (Server.get_movie "tt0000005" no_faults w0).1.
Proof.
  split; [reflexivity|]. split; [reflexivity|].
  intros (st & b & Hresp & Hst).
  change (Response 500 (error_body Reference.BSONError) = Response st b) in Hresp.
  injection Hresp as <- _. lia.
Qed.

(** ** C3 *)

Lemma traffic_spares_blacksmith :
  Forall (fun fr : faults * request => ~ mutates blacksmith_id fr.2) traffic.
Proof.
  unfold traffic. repeat apply Forall_cons_2; try apply Forall_nil_2;
    cbn [snd mutates]; try tauto; discriminate.
Qed.

Lemma deleted_movie_is_not_found_witness :
  redis w_read !! RedisServer.movie_key blacksmith_id
  = Some (JSON_stringify blacksmith_projection)
  /\ (RedisServer.handle (GetMovie blacksmith_id) no_faults
        (run RedisServer.handle traffic
           (RedisServer.handle (DeleteMovie blacksmith_id) no_faults w_read).2)).1
     = Response 404 (BText "Not found").
Proof.
  split; [reflexivity|].
  assert (ObjectId blacksmith_id = Some blacksmith_id) as Hid
    by reflexivity.
  assert (unique_ids (db w_read)) as Huniq.
  { replace (db w_read) with (db w0) by reflexivity.
    exact unique_ids_w0. }
  pose proof (RedisServer_variant (H := platform)) as Hin.
  exact (proj2 (deleted_movie_is_not_found (H := platform)
                  blacksmith_id blacksmith_id w_read no_faults no_faults traffic
                  Hid Huniq eq_refl eq_refl eq_refl eq_refl RedisServer.handle Hin)).
Defined.

(** C3 as stated fails in redisServer.js.  First scenario: the [del]
    commands of the delete fail, the movie leaves the store, and the next
    read is served from the cache.  Second scenario: nothing fails, but the
    read uses the upper-case spelling of the identifier under which the
    entry was cached, and the delete the lower-case one. *)
Lemma cached_copy_after_delete :
  (findOne blacksmith_id (db w_read) = Some blacksmith
   /\ (RedisServer.delete_movie blacksmith_id del_fails w_read).1
      = Response 200 (BJson (DeleteResult_json {| deletedCount := 1 |}))
   /\ findOne blacksmith_id
        (db (RedisServer.delete_movie blacksmith_id del_fails w_read).2) = None
   /\ (RedisServer.get_movie blacksmith_id no_faults
         (RedisServer.delete_movie blacksmith_id del_fails w_read).2).1
      = Response 200 (BJson blacksmith_projection)
   /\ ~ not_found_after_delete RedisServer.handle blacksmith_id blacksmith_id
         del_fails no_faults w_read)
  /\ (ObjectId blacksmith_ID = ObjectId blacksmith_id
      /\ (RedisServer.delete_movie blacksmith_id no_faults w_READ).1
         = Response 200 (BJson (DeleteResult_json {| deletedCount := 1 |}))
      /\ findOne blacksmith_id
           (db (RedisServer.delete_movie blacksmith_id no_faults w_READ).2) = None
      /\ (RedisServer.get_movie blacksmith_ID no_faults
            (RedisServer.delete_movie blacksmith_id no_faults w_READ).2).1
         = Response 200 (BJson blacksmith_projection)
      /\ ~ not_found_after_delete RedisServer.handle blacksmith_id blacksmith_ID
            no_faults no_faults w_READ).
Proof.
  split.
  - split_and!; try reflexivity.
    intros Hnf.
    change (Response 200 (BJson blacksmith_projection)
            = Response 404 (BText "Not found")) in Hnf.
    discriminate Hnf.
  - split_and!; try reflexivity.
    intros Hnf.
    change (Response 200 (BJson blacksmith_projection)
            = Response 404 (BText "Not found")) in Hnf.
    discriminate Hnf.
Qed.

(** ** C2 *)

Lemma updated_title_is_served_witness :
  redis w_read !! RedisServer.movie_key blacksmith_id
  = Some (JSON_stringify blacksmith_projection)
  /\ exists doc,
      (RedisServer.handle (GetMovie blacksmith_id) no_faults
         (run RedisServer.handle traffic
            (RedisServer.handle (PatchMovie blacksmith_id (Some (JStr "Anvil")))
               del_fails w_read).2)).1
      = Response 200 (BJson doc)
      /\ json_field "title" doc = Some (bson_value (Some (JStr "Anvil"))).
Proof.
  split; [reflexivity|].
  assert (ObjectId blacksmith_id = Some blacksmith_id) as Hid
    by reflexivity.
  assert (findOne blacksmith_id (db w_read) = Some blacksmith) as Hfound
    by reflexivity.
  pose proof (RedisServer_variant (H := platform)) as Hin.
  exact (proj2 (updated_title_is_served (H := platform)
                  blacksmith_id blacksmith_id blacksmith (Some (JStr "Anvil"))
                  w_read del_fails no_faults traffic
                  reference_roundtrip Hid Hfound eq_refl eq_refl
                  (fun _ => eq_refl) traffic_spares_blacksmith eq_refl eq_refl
                  RedisServer.handle Hin)).
Defined.

(** C2 as stated fails in redisServer.js.  First scenario: the write-through
    [set] of the update fails, the store holds the new title, and the next
    read serves the old one from the cache.  Second scenario: nothing
    fails, but the read uses the upper-case spelling of the identifier
    under which the entry was cached, and the update the lower-case one. *)
Lemma stale_title_after_update :
  (findOne blacksmith_id (db w_read) = Some blacksmith
   /\ (RedisServer.patch_movie blacksmith_id (Some (JStr "Anvil")) set_fails w_read).1
      = Response 200
          (BJson (UpdateResult_json {| matchedCount := 1; modifiedCount := 1 |}))
   /\ findOne blacksmith_id
        (db (RedisServer.patch_movie blacksmith_id (Some (JStr "Anvil"))
               set_fails w_read).2)
      = Some (set_title (JStr "Anvil") blacksmith)
   /\ (RedisServer.get_movie blacksmith_id no_faults
         (RedisServer.patch_movie blacksmith_id (Some (JStr "Anvil"))
            set_fails w_read).2).1
      = Response 200 (BJson blacksmith_projection)
   /\ json_field "title" blacksmith_projection = Some (JStr "Blacksmith Scene")
   /\ ~ title_after_update RedisServer.handle blacksmith_id blacksmith_id
         (JStr "Anvil") set_fails no_faults w_read)
  /\ (ObjectId blacksmith_ID = ObjectId blacksmith_id
      /\ findOne blacksmith_id
           (db (RedisServer.patch_movie blacksmith_id (Some (JStr "Anvil"))
                  no_faults w_READ).2)
         = Some (set_title (JStr "Anvil") blacksmith)
      /\ (RedisServer.get_movie blacksmith_ID no_faults
            (RedisServer.patch_movie blacksmith_id (Some (JStr "Anvil"))
               no_faults w_READ).2).1
         = Response 200 (BJson blacksmith_projection)
      /\ ~ title_after_update RedisServer.handle blacksmith_id blacksmith_ID
            (JStr "Anvil") no_faults no_faults w_READ).
Proof.
  split.
  - split_and!; try reflexivity.
    intros (doc & Hdoc & Htitle).
    change (Response 200 (BJson blacksmith_projection) = Response 200 (BJson doc))
      in Hdoc.
    injection Hdoc as <-. discriminate Htitle.
  - split_and!; try reflexivity.
    intros (doc & Hdoc & Htitle).
    change (Response 200 (BJson blacksmith_projection) = Response 200 (BJson doc))
      in Hdoc.
    injection Hdoc as <-. discriminate Htitle.
Qed.

(** ** C1 *)

Lemma invalidation_as_implemented_witness :
  redis w_read !! RedisServer.movie_key blacksmith_id
  = Some (JSON_stringify blacksmith_projection)
  /\ invalidated blacksmith_id
       (RedisServer.delete_movie blacksmith_id no_faults w_read).2
  /\ redis (RedisServer.patch_movie blacksmith_id (Some (JStr "Anvil"))
              no_faults w_read).2
     !! RedisServer.movie_key blacksmith_id
     = Some (JSON_stringify
               (simple_json (simplifyMovie (set_title (JStr "Anvil") blacksmith)))).
Proof.
  split; [reflexivity|].
  destruct (invalidation_as_implemented (H := platform)
              blacksmith_id blacksmith_id blacksmith (Some (JStr "Anvil"))
              no_faults w_read eq_refl eq_refl (fun _ => eq_refl)
              (fun _ _ => eq_refl)) as [Hdelete Hpatch].
  split.
  - exact (proj1 (Hdelete eq_refl)).
  - exact (proj1 (proj2 (Hpatch eq_refl eq_refl))).
Defined.

(** C1 as stated fails in redisServer.js: after a successful update of a
    stored and cached movie, with no failure anywhere, the per-item key is
    still set (to the new projection), so the movie's entries are not both
    deleted. *)
Lemma update_keeps_item_entry :
  (RedisServer.patch_movie blacksmith_id (Some (JStr "Anvil")) no_faults w_read).1
  = Response 200
      (BJson (UpdateResult_json {| matchedCount := 1; modifiedCount := 1 |}))
  /\ is_Some (redis (RedisServer.patch_movie blacksmith_id (Some (JStr "Anvil"))
                       no_faults w_read).2
              !! RedisServer.movie_key blacksmith_id)
  /\ ~ invalidated blacksmith_id
        (RedisServer.patch_movie blacksmith_id (Some (JStr "Anvil"))
           no_faults w_read).2.
Proof.
  split; [reflexivity|]. split.
  - eexists. reflexivity.
  - intros [Hitem _].
    change (Some (JSON_stringify
                    (simple_json (simplifyMovie (set_title (JStr "Anvil") blacksmith))))
            = None) in Hitem.
    discriminate Hitem.
Qed.

(** ** C5 *)

Lemma read_through_per_item_witness :
  read_through RedisServer.get_movie (simple_json ∘ simplifyMovie)
    blacksmith_id blacksmith w0
  /\ always_from_store Server.get_movie blacksmith_id blacksmith_id no_faults w0
  /\ always_from_store Part000.get_movie blacksmith_id blacksmith_id no_faults w0.
Proof.
  destruct (read_through_per_item (H := platform) blacksmith_id blacksmith_id
              blacksmith w0 reference_roundtrip reference_nonempty
              eq_refl eq_refl eq_refl) as [Hread Hplain].
  split; [exact Hread|]. exact (Hplain no_faults w0 eq_refl).
Defined.

(** C5 as stated fails in server.js and in part_000: the first read of a
    stored movie issues no cache [set], and the second read calls the
    store again. *)
Lemma no_read_through_without_item_cache :
  findOne blacksmith_id (db w0) = Some blacksmith
  /\ (Server.get_movie blacksmith_id no_faults w0).1
     = Response 200 (BJson (movie_json blacksmith))
  /\ filter is_redis_set (since w0 (Server.get_movie blacksmith_id no_faults w0).2)
     = []
  /\ filter is_mongo
       (since (Server.get_movie blacksmith_id no_faults w0).2
          (Server.get_movie blacksmith_id no_faults
             (Server.get_movie blacksmith_id no_faults w0).2).2)
     = [MongoFindOne blacksmith_id]
  /\ ~ read_through Server.get_movie movie_json blacksmith_id blacksmith w0
  /\ ~ read_through Part000.get_movie movie_json blacksmith_id blacksmith w0.
Proof.
  split_and!; try reflexivity.
  - intros (_ & _ & _ & Hstore).
    change ([MongoFindOne blacksmith_id] = []) in Hstore. discriminate Hstore.
  - intros (_ & _ & _ & Hstore).
    change ([MongoFindOne blacksmith_id] = []) in Hstore. discriminate Hstore.
Qed.

End Examples.

(** * Further properties of the handlers *)

Section WhatNeverHappens.
Context `{Platform}.
Import RedisServer.

Lemma handle_ids_sublist handle r flt w :
  handle ∈ variants ->
  (_id <$> db (handle r flt w).2) `sublist_of` (_id <$> db w).
Proof.
  intros Hin. revert handle Hin r. apply (variants_cases (fun handle =>
    forall r, (_id <$> db (handle r flt w).2) `sublist_of` (_id <$> db w)));
    intros [|id|id title|id]; cbn [Server.handle Part000.handle handle].
  - by destruct (Server_get_movies_effect flt w) as [-> _].
  - by destruct (uncached_get_movie_effect id flt w) as [[-> _] _].
  - destruct (Server_patch_movie_effect id title flt w) as [_ [-> | (j & _ & ->)]];
      [done | by rewrite updateOne_ids].
  - destruct (Server_delete_movie_effect id flt w) as [_ [-> | (j & _ & ->)]];
      [done | apply fmap_sublist, deleteOne_sublist].
  - by destruct (Part000_get_movies_effect flt w) as [-> _].
  - by destruct (uncached_get_movie_effect id flt w) as [_ [-> _]].
  - destruct (Part000_patch_movie_effect id title flt w)
      as [[-> _]|(j & failed & _ & -> & _)]; [done | by rewrite updateOne_ids].
  - destruct (Part000_delete_movie_effect id flt w)
      as [[-> _]|(j & failed & _ & -> & _)];
      [done | apply fmap_sublist, deleteOne_sublist].
  - by destruct (RedisServer_get_movies_effect flt w) as [-> _].
  - by destruct (RedisServer_get_movie_effect id flt w) as [-> _].
  - destruct (RedisServer_patch_movie_effect id title flt w)
      as [[-> _]|(j & _ & -> & _)]; [done | by rewrite updateOne_ids].
  - destruct (RedisServer_delete_movie_effect id flt w)
      as [[-> _]|(j & fi & fl & _ & -> & _)];
      [done | apply fmap_sublist, deleteOne_sublist].
Qed.

Lemma run_ids_sublist handle rs w :
  handle ∈ variants ->
  (_id <$> db (run handle rs w)) `sublist_of` (_id <$> db w).
Proof.
  intros Hin. revert w. induction rs as [|[flt r] rs IH]; intros w; [done|].
  cbn. etrans; [apply IH|]. by apply handle_ids_sublist.
Qed.

(** X1.  No variant has a route that creates a document: after any requests
    under any faults, the identifiers in the collection are a sublist of
    the identifiers it started with, in their order. *)
Theorem no_request_adds_a_document (rs : list (faults * request)) (w : world) :
  (_id <$> db (run Server.handle rs w)) `sublist_of` (_id <$> db w)
  /\ (_id <$> db (run Part000.handle rs w)) `sublist_of` (_id <$> db w)
  /\ (_id <$> db (run RedisServer.handle rs w)) `sublist_of` (_id <$> db w).
Proof.
  split_and!; apply run_ids_sublist;
    [apply Server_variant | apply Part000_variant | apply RedisServer_variant].
Qed.

Lemma keeps_entries_refl (r : gmap string string) : keeps_entries r r.
Proof. by intros k. Qed.

Lemma keeps_entries_insert k v (r : gmap string string) :
  keeps_entries r (<[k := v]> r).
Proof.
  intros k' Hk'. destruct (decide (k = k')) as [->|Hne].
  - rewrite lookup_insert_eq. by eexists.
  - by rewrite lookup_insert_ne.
Qed.

(** X2.  The list and get-by-id handlers of every variant are reads: under
    any faults they leave the collection as it is, and they never remove a
    cache entry. *)
Theorem reads_change_nothing_but_add_entries
    (id : string) (flt : faults) (w : world) :
  Forall (fun h : handler =>
            db (h flt w).2 = db w /\ keeps_entries (redis w) (redis (h flt w).2))
         (read_handlers id).
Proof.
  unfold read_handlers. repeat apply Forall_cons_2; try apply Forall_nil_2.
  - destruct (Server_get_movies_effect flt w) as [-> ->].
    split; [done | apply keeps_entries_refl].
  - destruct (uncached_get_movie_effect id flt w) as [[-> ->] _].
    split; [done | apply keeps_entries_refl].
  - destruct (Part000_get_movies_effect flt w) as [-> [-> | ->]];
      (split; [done|]); [apply keeps_entries_refl | apply keeps_entries_insert].
  - destruct (uncached_get_movie_effect id flt w) as [_ [-> ->]].
    split; [done | apply keeps_entries_refl].
  - destruct (RedisServer_get_movies_effect flt w) as [-> [-> | ->]];
      (split; [done|]); [apply keeps_entries_refl | apply keeps_entries_insert].
  - destruct (RedisServer_get_movie_effect id flt w)
      as [-> [-> | (i & m & _ & _ & _ & ->)]];
      (split; [done|]); [apply keeps_entries_refl | apply keeps_entries_insert].
Qed.

Lemma lookup_unless_failed_insert failed (k k' : string) v (r : gmap string string) :
  k' <> k -> unless_failed failed (<[k' := v]>) r !! k = r !! k.
Proof. intros Hne. destruct failed; cbn; [done|]. by rewrite lookup_insert_ne. Qed.

Lemma lookup_unless_failed_delete_ne failed (k k' : string) (r : gmap string string) :
  k' <> k -> unless_failed failed (delete k') r !! k = r !! k.
Proof. intros Hne. destruct failed; cbn; [done|]. by rewrite lookup_delete_ne. Qed.

(** X3.  Each request touches only the cache keys it names.  In
    redisServer.js a key other than the list key and the per-item key of
    the request's own identifier string keeps its value; in part_000 every
    key other than the list key keeps its value; server.js leaves the whole
    cache as it is.  This holds under any faults. *)
Theorem only_named_keys_change
    (r : request) (flt : faults) (w : world) (k : string) :
  (k ∉ touched r -> redis (RedisServer.handle r flt w).2 !! k = redis w !! k)
  /\ (k <> "movies" -> redis (Part000.handle r flt w).2 !! k = redis w !! k)
  /\ redis (Server.handle r flt w).2 = redis w.
Proof.
  split_and!.
  - intros Hk. destruct r as [|id|id title|id]; cbn [handle touched] in *.
    + destruct (RedisServer_get_movies_effect flt w) as [_ [-> | ->]]; [done|].
      apply lookup_insert_ne. set_solver.
    + destruct (RedisServer_get_movie_effect id flt w)
        as [_ [-> | (i & m & _ & _ & _ & ->)]]; [done|].
      apply lookup_insert_ne. set_solver.
    + destruct (RedisServer_patch_movie_effect id title flt w)
        as [[_ ->]|(j & _ & _ & [-> | (m & fs & fd & _ & ->)])]; [done..|].
      rewrite lookup_unless_failed_delete_ne by set_solver.
      apply lookup_unless_failed_insert. set_solver.
    + destruct (RedisServer_delete_movie_effect id flt w)
        as [[_ ->]|(j & fi & fl & _ & _ & ->)]; [done|].
      rewrite lookup_unless_failed_delete_ne by set_solver.
      apply lookup_unless_failed_delete_ne. set_solver.
  - intros Hlist. destruct r as [|id|id title|id]; cbn [Part000.handle].
    + destruct (Part000_get_movies_effect flt w) as [_ [-> | ->]]; [done|].
      by apply lookup_insert_ne.
    + by destruct (uncached_get_movie_effect id flt w) as [_ [_ ->]].
    + destruct (Part000_patch_movie_effect id title flt w)
        as [[_ ->]|(j & failed & _ & _ & ->)]; [done|].
      by apply lookup_unless_failed_delete_ne.
    + destruct (Part000_delete_movie_effect id flt w)
        as [[_ ->]|(j & failed & _ & _ & ->)]; [done|].
      by apply lookup_unless_failed_delete_ne.
  - destruct r as [|id|id title|id]; cbn [Server.handle].
    + by destruct (Server_get_movies_effect flt w) as [_ ->].
    + by destruct (uncached_get_movie_effect id flt w) as [[_ ->] _].
    + by destruct (Server_patch_movie_effect id title flt w) as [-> _].
    + by destruct (Server_delete_movie_effect id flt w) as [-> _].
Qed.

(** X4.  A route handler answers 200, 404 or 500 and nothing else: 500 only
    with the body [{error: message}] of an exception, and 404 only from a
    get-by-id, with the text Not found.  This holds in every variant, for
    every request and under any faults. *)
Theorem handlers_answer_200_404_500 (r : request) (flt : faults) (w : world) :
  status_ok r (Server.handle r flt w).1
  /\ status_ok r (Part000.handle r flt w).1
  /\ status_ok r (RedisServer.handle r flt w).1.
Proof.
  split_and!; destruct r as [|id|id title|id];
    cbn [Server.handle Part000.handle handle];
    split_handler; cbn [status_ok]; eauto 10.
Qed.

End WhatNeverHappens.

(** ** When the store or the cache text fails *)

Section Failures.
Context `{Platform}.
Import RedisServer.

(** X5.  When the store rejects the update, or the delete, every variant
    answers 500 with the body [{error: message}] of the store's error; the
    collection and the cache are as before, and no cache command was
    issued. *)
Theorem store_failure_on_mutation
    (id : string) (i : oid) (title : option json) (flt : faults) (w : world)
    (e : jserror) :
  ObjectId id = Some i ->
  (flt (MongoUpdateOne i (bson_value title)) = Some e ->
   Forall (fun h : handler =>
             h flt w = (Response 500 (error_body e),
                        logged [MongoUpdateOne i (bson_value title)] w))
          [Server.patch_movie id title; Part000.patch_movie id title;
           RedisServer.patch_movie id title])
  /\ (flt (MongoDeleteOne i) = Some e ->
      Forall (fun h : handler =>
                h flt w = (Response 500 (error_body e),
                           logged [MongoDeleteOne i] w))
             [Server.delete_movie id; Part000.delete_movie id;
              RedisServer.delete_movie id]).
Proof.
  intros Hi. split; intros He;
    repeat apply Forall_cons_2; try apply Forall_nil_2;
    by step_handler.
Qed.

(** X6.  When the store query fails, the list and get-by-id handlers of
    server.js and the get-by-id handler of part_000 answer 500 with the
    body [{error: message}] of the store's error. *)
Theorem store_failure_on_plain_read
    (id : string) (i : oid) (flt : faults) (w : world) (e : jserror) :
  ObjectId id = Some i ->
  (flt (MongoFind 10) = Some e ->
   Server.get_movies flt w
   = (Response 500 (error_body e), logged [MongoFind 10] w))
  /\ (flt (MongoFindOne i) = Some e ->
      Server.get_movie id flt w
      = (Response 500 (error_body e), logged [MongoFindOne i] w)
      /\ Part000.get_movie id flt w
         = (Response 500 (error_body e), logged [MongoFindOne i] w)).
Proof.
  intros Hi. split; [|split]; intros; by step_handler.
Qed.

(** X7.  In the caching variants the store is queried inside the callback
    of the cache read, outside the [try]: when that query fails after a
    cache miss, the exception escapes, no response is sent and nothing is
    cached.  This is so for the list handlers of part_000 and
    redisServer.js and for the get-by-id handler of redisServer.js. *)
Theorem store_failure_escapes_callback
    (flt : faults) (w : world) (e : jserror) :
  (flt (RedisGet "movies") = None -> truthy (redis w !! "movies") = None ->
   flt (MongoFind 10) = Some e ->
   Forall (fun h : handler =>
             h flt w
             = (Unhandled e,
                logged [RedisGet "movies";
                        ConsoleLog "No movies found in Redis cache, fetching from MongoDB";
                        MongoFind 10] w)
             /\ served (h flt w).1 = None)
          [Part000.get_movies; RedisServer.get_movies])
  /\ (forall movieId i,
        flt (RedisGet (movie_key movieId)) = None ->
        truthy (redis w !! movie_key movieId) = None ->
        ObjectId movieId = Some i ->
        flt (MongoFindOne i) = Some e ->
        get_movie movieId flt w
        = (Unhandled e,
           logged [RedisGet (movie_key movieId);
                   ConsoleLog "No movie found in Redis cache, fetching from MongoDB";
                   MongoFindOne i] w)
        /\ served (get_movie movieId flt w).1 = None).
Proof.
  split.
  - intros Hg Hm Hd.
    assert (forall (h : handler) w', h flt w = (Unhandled e, w') ->
              h flt w = (Unhandled e, w') /\ served (h flt w).1 = None) as Hpack
      by (by intros h w' ->).
    repeat apply Forall_cons_2; try apply Forall_nil_2; apply Hpack;
      step_handler; f_equal; world_eq.
  - intros movieId i Hg Hm Hi Hd.
    assert (get_movie movieId flt w
            = (Unhandled e,
               logged [RedisGet (movie_key movieId);
                       ConsoleLog "No movie found in Redis cache, fetching from MongoDB";
                       MongoFindOne i] w)) as ->
      by (step_handler; f_equal; world_eq).
    done.
Qed.

(** X8.  In redisServer.js an update can be applied and still be answered
    with 500: when the re-read that follows a matching update fails, the
    store holds the new title, the answer is 500 with the error's message,
    and no cache command is issued, so the per-item entry and the list
    entry stay as they were. *)
Theorem update_applied_but_answered_500
    (movieId : string) (i : oid) (m : movie) (title : option json)
    (flt : faults) (w : world) (e : jserror) :
  ObjectId movieId = Some i ->
  findOne i (db w) = Some m ->
  flt (MongoUpdateOne i (bson_value title)) = None ->
  flt (MongoFindOne i) = Some e ->
  let r := patch_movie movieId title flt w in
  r.1 = Response 500 (error_body e)
  /\ findOne i (db r.2) = Some (set_title (bson_value title) m)
  /\ redis r.2 = redis w
  /\ since w r.2 = [MongoUpdateOne i (bson_value title); MongoFindOne i].
Proof.
  intros Hi Hm Hu Hf.
  pose proof (updateOne_matched i (bson_value title) (db w)) as Hmc.
  pose proof (updateOne_findOne i (bson_value title) (db w)) as Hfo.
  rewrite Hm in Hmc, Hfo. cbn in Hfo. cbv zeta.
  destruct (updateOne i (bson_value title) (db w)) as [c r] eqn:Hup.
  cbn [fst snd] in *. step_handler. rewrite ?Hmc. step_handler.
  split_and!; try done.
  unfold since. cbn. by rewrite <- app_assoc, drop_app_length.
Qed.

(** X9.  A cache entry that is not JSON text is never repaired by a read.
    In the caching variants a hit on such an entry throws inside the
    callback: no response is sent, the store is not consulted, and the
    entry stays, so the next read of the same key fails in the same way.
    This is so for the list key in part_000 and redisServer.js and for a
    per-item key in redisServer.js. *)
Theorem corrupt_entry_is_never_repaired
    (flt : faults) (w : world) (k s : string) :
  flt (RedisGet k) = None ->
  redis w !! k = Some s -> s <> EmptyString -> JSON_parse s = None ->
  forall h : handler,
    (k = "movies" /\ h ∈ [Part000.get_movies; RedisServer.get_movies]
     \/ exists movieId, k = movie_key movieId /\ h = get_movie movieId) ->
    (h flt w).1 = Unhandled SyntaxError
    /\ db (h flt w).2 = db w
    /\ redis (h flt w).2 = redis w
    /\ filter is_mongo (since w (h flt w).2) = []
    /\ (h flt (h flt w).2).1 = Unhandled SyntaxError.
Proof.
  intros Hg Hs Hne Hp h Hh.
  pose proof (truthy_hit _ _ Hs Hne) as Ht.
  assert (exists line,
    h flt w = (Unhandled SyntaxError, logged [RedisGet k; ConsoleLog line] w)
    /\ forall w', redis w' = redis w ->
         (h flt w').1 = Unhandled SyntaxError) as (line & Hrun & Hagain).
  { destruct Hh as [[-> Hin]|(movieId & -> & ->)].
    - apply list_elem_of_In in Hin. destruct Hin as [<-|[<-|[]]];
        (eexists; split;
         [step_handler; f_equal; world_eq
         |intros w' Hw'; rewrite <- Hw' in Ht; by step_handler]).
    - eexists; split;
        [step_handler; f_equal; world_eq
        |intros w' Hw'; rewrite <- Hw' in Ht; by step_handler]. }
  rewrite Hrun. cbn [fst snd]. split_and!; try done.
  - by rewrite since_logged.
  - by apply Hagain.
Qed.

(** X10.  A 404 is not cached.  In redisServer.js a get-by-id for an
    identifier that the driver accepts and no document carries answers 404
    and leaves the cache as it is, so every repeat goes to the cache and
    then to the store again. *)
Theorem not_found_is_not_cached
    (movieId : string) (i : oid) (flt flt' : faults) (w : world) :
  ObjectId movieId = Some i ->
  findOne i (db w) = None ->
  truthy (redis w !! movie_key movieId) = None ->
  flt (RedisGet (movie_key movieId)) = None -> flt (MongoFindOne i) = None ->
  flt' (RedisGet (movie_key movieId)) = None -> flt' (MongoFindOne i) = None ->
  let r1 := get_movie movieId flt w in
  let r2 := get_movie movieId flt' r1.2 in
  r1.1 = Response 404 (BText "Not found")
  /\ redis r1.2 = redis w
  /\ r2.1 = Response 404 (BText "Not found")
  /\ since r1.2 r2.2
     = [RedisGet (movie_key movieId);
        ConsoleLog "No movie found in Redis cache, fetching from MongoDB";
        MongoFindOne i].
Proof.
  intros Hi Hnone Hm Hg Hf Hg' Hf'. cbv zeta.
  rewrite (get_movie_absent movieId i flt w) by done. cbn [fst snd].
  rewrite (get_movie_absent movieId i flt') by done. cbn [fst snd].
  split_and!; try done. by rewrite since_logged.
Qed.

(** X11.  What an update or a delete that matches nothing does to the
    cache differs between the variants.  In redisServer.js such an update
    issues no cache command at all; in part_000 it still deletes the list
    key; and the delete of redisServer.js still deletes the per-item key of
    the request's identifier string and the list key. *)
Theorem unmatched_mutation_and_the_cache
    (id : string) (i : oid) (title : option json) (flt : faults) (w : world) :
  ObjectId id = Some i ->
  findOne i (db w) = None ->
  (forall k, flt (RedisDel k) = None) ->
  (flt (MongoUpdateOne i (bson_value title)) = None ->
   since w (patch_movie id title flt w).2 = [MongoUpdateOne i (bson_value title)]
   /\ redis (patch_movie id title flt w).2 = redis w
   /\ redis (Part000.patch_movie id title flt w).2 = delete "movies" (redis w))
  /\ (flt (MongoDeleteOne i) = None ->
      redis (delete_movie id flt w).2
      = delete "movies" (delete (movie_key id) (redis w))
      /\ db (delete_movie id flt w).2 = db w).
Proof.
  intros Hi Hnone Hdel. split.
  - intros Hu. split_and!.
    + step_handler. rewrite (updateOne_miss _ _ _ Hnone). reduce_handler.
      unfold since. cbn. by rewrite drop_app_length.
    + step_handler. by rewrite (updateOne_miss _ _ _ Hnone).
    + destruct (Part000_patch_movie_done id i title flt w Hi Hu) as (_ & _ & ->).
      unfold fails. by rewrite Hdel.
  - intros Hd.
    destruct (RedisServer_delete_movie_done id i flt w Hi Hd) as (_ & -> & ->).
    unfold fails. rewrite !Hdel. split; [done|].
    by rewrite (deleteOne_miss _ _ Hnone).
Qed.

End Failures.

(** ** How the handlers compose *)

Section Composition.
Context `{Platform}.
Import RedisServer.

(** X12.  The cache layer is transparent for writes.  Under any faults the
    update and delete handlers of part_000 and the delete handler of
    redisServer.js give the answer of the same handler of server.js and
    leave the collection in the same state; so does the update handler of
    redisServer.js, as long as its re-read of the document does not fail. *)
Theorem cache_is_transparent_for_writes
    (id : string) (title : option json) (flt : faults) (w : world) :
  let same (h h0 : handler) :=
    (h flt w).1 = (h0 flt w).1 /\ db (h flt w).2 = db (h0 flt w).2 in
  same (Part000.patch_movie id title) (Server.patch_movie id title)
  /\ same (Part000.delete_movie id) (Server.delete_movie id)
  /\ same (RedisServer.delete_movie id) (Server.delete_movie id)
  /\ ((forall i, flt (MongoFindOne i) = None) ->
      same (RedisServer.patch_movie id title) (Server.patch_movie id title)).
Proof.
  cbv beta zeta.
  assert (forall (h : handler) o w', h flt w = (o, w') ->
            forall h0 : handler, h0 flt w = (o, w') ->
            (h flt w).1 = (h0 flt w).1 /\ db (h flt w).2 = db (h0 flt w).2)
    as Hsame by (by intros h o w' -> h0 ->).
  assert (forall (h h0 : handler) o c,
            (h flt w).1 = o -> db (h flt w).2 = c ->
            (h0 flt w).1 = o -> db (h0 flt w).2 = c ->
            (h flt w).1 = (h0 flt w).1 /\ db (h flt w).2 = db (h0 flt w).2)
    as Hboth by (intros h h0 o c -> -> -> ->; done).
  destruct (ObjectId id) as [i|] eqn:Hi.
  2:{ split; [|split; [|split]]; try intros _;
        apply (Hsame _ (Response 500 (error_body BSONError)) w); by step_handler. }
  split; [|split; [|split]].
  - destruct (flt (MongoUpdateOne i (bson_value title))) as [e|] eqn:Hu.
    + apply (Hsame _ (Response 500 (error_body e))
               (logged [MongoUpdateOne i (bson_value title)] w)); by step_handler.
    + destruct (Part000_patch_movie_done id i title flt w Hi Hu) as (Ho & Hdb & _).
      destruct (Server_patch_movie_done id i title flt w Hi Hu) as (Ho' & Hdb' & _).
      exact (Hboth _ _ _ _ Ho Hdb Ho' Hdb').
  - destruct (flt (MongoDeleteOne i)) as [e|] eqn:Hd.
    + apply (Hsame _ (Response 500 (error_body e)) (logged [MongoDeleteOne i] w));
        by step_handler.
    + destruct (Part000_delete_movie_done id i flt w Hi Hd) as (Ho & Hdb & _).
      destruct (Server_delete_movie_done id i flt w Hi Hd) as (Ho' & Hdb' & _).
      exact (Hboth _ _ _ _ Ho Hdb Ho' Hdb').
  - destruct (flt (MongoDeleteOne i)) as [e|] eqn:Hd.
    + apply (Hsame _ (Response 500 (error_body e)) (logged [MongoDeleteOne i] w));
        by step_handler.
    + destruct (RedisServer_delete_movie_done id i flt w Hi Hd) as (Ho & Hdb & _).
      destruct (Server_delete_movie_done id i flt w Hi Hd) as (Ho' & Hdb' & _).
      exact (Hboth _ _ _ _ Ho Hdb Ho' Hdb').
  - intros Hre.
    destruct (flt (MongoUpdateOne i (bson_value title))) as [e|] eqn:Hu.
    + apply (Hsame _ (Response 500 (error_body e))
               (logged [MongoUpdateOne i (bson_value title)] w)); by step_handler.
    + destruct (Server_patch_movie_done id i title flt w Hi Hu) as (Ho' & Hdb' & _).
      destruct (findOne i (db w)) as [m|] eqn:Hm.
      * destruct (RedisServer_patch_movie_done id i m title flt w Hi Hm Hu (Hre i))
          as (Ho & _ & Hdb & _).
        exact (Hboth _ _ _ _ Ho Hdb Ho' Hdb').
      * eapply Hboth; [| |exact Ho'|exact Hdb'];
          step_handler; by rewrite (updateOne_miss _ _ _ Hm).
Qed.

Lemma list_round_trip (get_movies : handler) (view : movie -> json)
    (flt1 flt2 : faults) (w : world) :
  (forall flt w, flt (RedisGet "movies") = None ->
     truthy (redis w !! "movies") = None -> flt (MongoFind 10) = None ->
     list_miss get_movies view flt w) ->
  (forall flt w s v, flt (RedisGet "movies") = None ->
     redis w !! "movies" = Some s -> s <> EmptyString -> JSON_parse s = Some v ->
     list_hit get_movies flt w s v) ->
  codec_roundtrip -> codec_nonempty ->
  redis w !! "movies" = None ->
  flt1 (RedisGet "movies") = None -> flt1 (MongoFind 10) = None ->
  (forall v, flt1 (RedisSet "movies" v) = None) ->
  flt2 (RedisGet "movies") = None ->
  let r1 := get_movies flt1 w in
  let r2 := get_movies flt2 r1.2 in
  r1.1 = Response 200 (BJson (JArr (view <$> find_limit 10 (db w))))
  /\ r2.1 = r1.1
  /\ filter is_mongo (since r1.2 r2.2) = []
  /\ db r2.2 = db w.
Proof.
  intros Hmiss Hhit Hrt Hne Hw Hg1 Hd1 Hs1 Hg2. cbv zeta.
  assert (truthy (redis w !! "movies") = None) as Ht by (by rewrite Hw).
  destruct (Hmiss flt1 w Hg1 Ht Hd1) as (w1 & Hrun & _ & _ & Hdb & Hr).
  rewrite Hs1 in Hr. rewrite Hrun. cbn [fst snd].
  assert (redis w1 !! "movies"
          = Some (JSON_stringify (JArr (view <$> find_limit 10 (db w))))) as Hcached
    by (rewrite Hr; apply lookup_insert_eq).
  destruct (Hhit flt2 w1 _ _ Hg2 Hcached (Hne _) (Hrt _)) as (Hrun2 & Hno & _).
  rewrite Hrun2. cbn [fst snd]. split_and!; try done.
Qed.

(** X13.  The list handlers of both caching variants are read-through.
    With the list key unset and nothing failing, the first request answers
    with the first ten documents (as the variant sends them) and caches
    their serialization; the next request is answered from the cache with
    the same body, without a call to the store. *)
Theorem list_is_read_through (flt1 flt2 : faults) (w : world) :
  codec_roundtrip -> codec_nonempty ->
  redis w !! "movies" = None ->
  flt1 (RedisGet "movies") = None -> flt1 (MongoFind 10) = None ->
  (forall v, flt1 (RedisSet "movies" v) = None) ->
  flt2 (RedisGet "movies") = None ->
  Forall (fun hv : handler * (movie -> json) =>
            let r1 := hv.1 flt1 w in
            let r2 := hv.1 flt2 r1.2 in
            r1.1 = Response 200 (BJson (JArr (hv.2 <$> find_limit 10 (db w))))
            /\ r2.1 = r1.1
            /\ filter is_mongo (since r1.2 r2.2) = []
            /\ db r2.2 = db w)
         list_handlers.
Proof.
  intros Hrt Hne Hw Hg1 Hd1 Hs1 Hg2. unfold list_handlers.
  repeat apply Forall_cons_2; try apply Forall_nil_2; cbn [fst snd].
  - apply list_round_trip; try done;
      [apply list_miss_Part000 | apply list_hit_Part000].
  - apply list_round_trip; try done;
      [apply list_miss_RedisServer | apply list_hit_RedisServer].
Qed.

Lemma list_after_invalidation (get_movies : handler) (view : movie -> json)
    (flt : faults) (w : world) :
  list_miss get_movies view flt w ->
  (get_movies flt w).1 = Response 200 (BJson (JArr (view <$> find_limit 10 (db w)))).
Proof. by intros (w' & -> & _). Qed.

(** X14.  After a mutation whose [del] of the list key did not fail, the
    next list request is answered from the store and shows the collection
    as the mutation left it.  This holds after a delete in both caching
    variants, after an update in part_000, and in redisServer.js after an
    update that matched a document (an update that matches nothing issues
    no [del] there). *)
Theorem list_is_fresh_after_mutation
    (id : string) (i : oid) (flt_m flt_g : faults) (w : world) :
  ObjectId id = Some i ->
  flt_m (RedisDel "movies") = None ->
  flt_g (RedisGet "movies") = None -> flt_g (MongoFind 10) = None ->
  (flt_m (MongoDeleteOne i) = None ->
   let c := (deleteOne i (db w)).1 in
   (Part000.get_movies flt_g (Part000.delete_movie id flt_m w).2).1
   = Response 200 (BJson (JArr (movie_json <$> find_limit 10 c)))
   /\ (RedisServer.get_movies flt_g (RedisServer.delete_movie id flt_m w).2).1
      = Response 200
          (BJson (JArr ((simple_json ∘ simplifyMovie) <$> find_limit 10 c))))
  /\ (forall title,
        flt_m (MongoUpdateOne i (bson_value title)) = None ->
        let c := (updateOne i (bson_value title) (db w)).1 in
        (Part000.get_movies flt_g (Part000.patch_movie id title flt_m w).2).1
        = Response 200 (BJson (JArr (movie_json <$> find_limit 10 c)))
        /\ (forall m,
              findOne i (db w) = Some m -> flt_m (MongoFindOne i) = None ->
              (RedisServer.get_movies flt_g
                 (RedisServer.patch_movie id title flt_m w).2).1
              = Response 200
                  (BJson (JArr ((simple_json ∘ simplifyMovie) <$> find_limit 10 c))))).
Proof.
  intros Hi Hdel Hg Hf.
  assert (forall r : gmap string string, delete "movies" r !! "movies" = None)
    as Hgone by (intros r; apply lookup_delete_eq).
  split.
  - intros Hd. cbv zeta. split.
    + destruct (Part000_delete_movie_done id i flt_m w Hi Hd) as (_ & Hdb & Hr).
      rewrite <- Hdb. apply list_after_invalidation, list_miss_Part000; try done.
      rewrite Hr. unfold fails. rewrite Hdel. cbn. by rewrite Hgone.
    + destruct (RedisServer_delete_movie_done id i flt_m w Hi Hd) as (_ & Hdb & Hr).
      rewrite <- Hdb. apply list_after_invalidation, list_miss_RedisServer; try done.
      rewrite Hr. unfold fails at 1. rewrite Hdel. cbn. by rewrite Hgone.
  - intros title Hu. cbv zeta. split.
    + destruct (Part000_patch_movie_done id i title flt_m w Hi Hu) as (_ & Hdb & Hr).
      rewrite <- Hdb. apply list_after_invalidation, list_miss_Part000; try done.
      rewrite Hr. unfold fails. rewrite Hdel. cbn. by rewrite Hgone.
    + intros m Hm Hre.
      destruct (RedisServer_patch_movie_done id i m title flt_m w Hi Hm Hu Hre)
        as (_ & _ & Hdb & Hr).
      rewrite <- Hdb. apply list_after_invalidation, list_miss_RedisServer; try done.
      rewrite Hr. unfold fails at 1. rewrite Hdel. cbn. by rewrite Hgone.
Qed.

(** X15.  Delete is idempotent on the store.  With the unique index, after
    a delete that reached the store, a second delete of the same identifier
    answers 200 with deletedCount 0 and leaves the collection as the first
    one left it, in every variant. *)
Theorem delete_is_idempotent
    (id : string) (i : oid) (flt1 flt2 : faults) (w : world) :
  ObjectId id = Some i ->
  unique_ids (db w) ->
  flt1 (MongoDeleteOne i) = None -> flt2 (MongoDeleteOne i) = None ->
  Forall (fun delete_movie : string -> handler =>
            let r1 := delete_movie id flt1 w in
            let r2 := delete_movie id flt2 r1.2 in
            r2.1 = Response 200 (BJson (DeleteResult_json {| deletedCount := 0 |}))
            /\ db r2.2 = db r1.2)
         [Server.delete_movie; Part000.delete_movie; RedisServer.delete_movie].
Proof.
  intros Hi Huniq Hd1 Hd2.
  pose proof (deleteOne_miss i _ (deleteOne_findOne i (db w) Huniq)) as Hagain.
  repeat apply Forall_cons_2; try apply Forall_nil_2; cbv zeta.
  - destruct (Server_delete_movie_done id i flt1 w Hi Hd1) as (_ & Hdb & _).
    destruct (Server_delete_movie_done id i flt2
                (Server.delete_movie id flt1 w).2 Hi Hd2) as (-> & -> & _).
    by rewrite Hdb, Hagain.
  - destruct (Part000_delete_movie_done id i flt1 w Hi Hd1) as (_ & Hdb & _).
    destruct (Part000_delete_movie_done id i flt2
                (Part000.delete_movie id flt1 w).2 Hi Hd2) as (-> & -> & _).
    by rewrite Hdb, Hagain.
  - destruct (RedisServer_delete_movie_done id i flt1 w Hi Hd1) as (_ & Hdb & _).
    destruct (RedisServer_delete_movie_done id i flt2
                (RedisServer.delete_movie id flt1 w).2 Hi Hd2) as (-> & -> & _).
    by rewrite Hdb, Hagain.
Qed.

End Composition.

(** ** Repeating an update, and what the per-item cache holds *)

Section Repetition.
Context `{Platform}.
Import RedisServer.

Lemma json_eqb_refl v : json_eqb v v = true.
Proof.
  induction v as [|b|z|s|l IH|fs IH] using ReferenceFacts.json_ind_nested; cbn.
  - done.
  - by destruct b.
  - apply Z.eqb_refl.
  - apply String.eqb_refl.
  - induction IH as [|v l Hv _ IHl]; [done|]. by rewrite Hv, IHl.
  - induction IH as [|[k v] fs Hv _ IHfs]; [done|].
    cbn in Hv. by rewrite String.eqb_refl, Hv, IHfs.
Qed.

Lemma set_prop_twice k v fs : set_prop k v (set_prop k v fs) = set_prop k v fs.
Proof.
  induction fs as [|[k' v'] fs IH]; cbn.
  - by rewrite String.eqb_refl.
  - destruct (String.eqb k k') eqn:E; cbn; rewrite E; [done | by rewrite IH].
Qed.

(** The same update again matches, and modifies nothing. *)
Lemma updateOne_twice i t c m :
  findOne i c = Some m ->
  updateOne i t (updateOne i t c).1
  = ((updateOne i t c).1, {| matchedCount := 1; modifiedCount := 0 |}).
Proof.
  unfold findOne. induction c as [|m' c IH]; cbn; [done|].
  destruct (has_id i m') eqn:E; cbn.
  - intros _. change (has_id i (set_title t m')) with (has_id i m'). rewrite E.
    unfold title_is, set_title. cbn. rewrite get_prop_set_prop, json_eqb_refl.
    by rewrite set_prop_twice.
  - intros Hm. specialize (IH Hm).
    destruct (updateOne i t c) as [c' r]; cbn in *. by rewrite E, IH.
Qed.

(** X16.  Update is idempotent on the store.  After an update that reached
    the store for a stored movie, the same update again answers 200 with
    matchedCount 1 and modifiedCount 0 and leaves the collection as the
    first one left it, in every variant (in redisServer.js, provided the
    re-read of the document does not fail). *)
Theorem update_is_idempotent
    (id : string) (i : oid) (m : movie) (title : option json)
    (flt1 flt2 : faults) (w : world) :
  ObjectId id = Some i ->
  findOne i (db w) = Some m ->
  flt1 (MongoUpdateOne i (bson_value title)) = None ->
  flt2 (MongoUpdateOne i (bson_value title)) = None ->
  flt1 (MongoFindOne i) = None -> flt2 (MongoFindOne i) = None ->
  Forall (fun patch_movie : string -> option json -> handler =>
            let r1 := patch_movie id title flt1 w in
            let r2 := patch_movie id title flt2 r1.2 in
            r2.1 = Response 200
                     (BJson (UpdateResult_json
                               {| matchedCount := 1; modifiedCount := 0 |}))
            /\ db r2.2 = db r1.2)
         [Server.patch_movie; Part000.patch_movie; RedisServer.patch_movie].
Proof.
  intros Hi Hm Hu1 Hu2 Hf1 Hf2.
  pose proof (updateOne_twice i (bson_value title) (db w) m Hm) as Hagain.
  pose proof (updateOne_findOne i (bson_value title) (db w)) as Hfound.
  rewrite Hm in Hfound. cbn in Hfound.
  repeat apply Forall_cons_2; try apply Forall_nil_2; cbv zeta.
  - destruct (Server_patch_movie_done id i title flt1 w Hi Hu1) as (_ & Hdb & _).
    destruct (Server_patch_movie_done id i title flt2
                (Server.patch_movie id title flt1 w).2 Hi Hu2) as (-> & -> & _).
    by rewrite Hdb, Hagain.
  - destruct (Part000_patch_movie_done id i title flt1 w Hi Hu1) as (_ & Hdb & _).
    destruct (Part000_patch_movie_done id i title flt2
                (Part000.patch_movie id title flt1 w).2 Hi Hu2) as (-> & -> & _).
    by rewrite Hdb, Hagain.
  - destruct (RedisServer_patch_movie_done id i m title flt1 w Hi Hm Hu1 Hf1)
      as (_ & _ & Hdb & _).
    rewrite <- Hdb in Hfound.
    destruct (RedisServer_patch_movie_done id i _ title flt2
                (RedisServer.patch_movie id title flt1 w).2 Hi Hfound Hu2 Hf2)
      as (-> & _ & -> & _).
    by rewrite Hdb, Hagain.
Qed.

Lemma findOne_has_id i c m : findOne i c = Some m -> _id m = i.
Proof. intros Hf. apply find_some in Hf as [_ Hm]. by apply has_id_true. Qed.

Lemma item_ok_insert movieId i m (r : gmap string string) :
  ObjectId movieId = Some i -> _id m = i -> item_ok r ->
  item_ok (<[movie_key movieId := JSON_stringify (simple_json (simplifyMovie m))]> r).
Proof.
  intros Hi Hm Hr s text. destruct (decide (s = movieId)) as [->|Hne].
  - rewrite lookup_insert_eq. intros Ht. apply (inj Some) in Ht as <-. eauto.
  - rewrite lookup_insert_ne; [apply Hr|]. by intros ?%movie_key_inj.
Qed.

Lemma item_ok_delete k (r : gmap string string) : item_ok r -> item_ok (delete k r).
Proof.
  intros Hr s text. rewrite lookup_delete. case_decide; [done | apply Hr].
Qed.

Lemma item_ok_unless_failed failed f (r : gmap string string) :
  (item_ok r -> item_ok (f r)) -> item_ok r -> item_ok (unless_failed failed f r).
Proof. destruct failed; cbn; auto. Qed.

Lemma handle_item_ok r flt w :
  item_ok (redis w) -> item_ok (redis (handle r flt w).2).
Proof.
  intros Hw. destruct r as [|id|id title|id]; cbn [handle].
  - destruct (RedisServer_get_movies_effect flt w) as [_ [-> | ->]]; [done|].
    intros s text. rewrite lookup_insert_ne by (symmetry; apply movie_key_not_list).
    apply Hw.
  - destruct (RedisServer_get_movie_effect id flt w)
      as [_ [-> | (i & m & Hi & Hm & _ & ->)]]; [done|].
    apply (item_ok_insert id i); [done | by eapply findOne_has_id | done].
  - destruct (RedisServer_patch_movie_effect id title flt w)
      as [[_ ->]|(i & Hi & _ & [-> | (m & fs & fd & Hm & ->)])]; [done..|].
    apply item_ok_unless_failed; [apply item_ok_delete|].
    apply item_ok_unless_failed; [|done].
    apply (item_ok_insert id i); [done | by eapply findOne_has_id].
  - destruct (RedisServer_delete_movie_effect id flt w)
      as [[_ ->]|(i & fi & fl & _ & _ & ->)]; [done|].
    apply item_ok_unless_failed; [apply item_ok_delete|].
    apply item_ok_unless_failed; [apply item_ok_delete | done].
Qed.

Lemma id_of_projection m :
  json_field "id" (simple_json (simplifyMovie m)) = Some (JStr (toHexString (_id m))).
Proof. done. Qed.

(** X17.  In redisServer.js the per-item cache never mixes movies up.  From
    an empty cache, after any requests under any faults, every per-item
    entry is the serialized projection of a document whose identifier is
    the one the key spells; so every 200 answer of get-by-id, from the
    cache or from the store, carries the identifier that was asked for. *)
Theorem item_entries_match_their_key
    (w0 : world) (rs : list (faults * request)) :
  redis w0 = ∅ ->
  let w := run handle rs w0 in
  item_ok (redis w)
  /\ (codec_roundtrip ->
      forall movieId flt doc,
        (get_movie movieId flt w).1 = Response 200 (BJson doc) ->
        exists i, ObjectId movieId = Some i
                  /\ json_field "id" doc = Some (JStr (toHexString i))).
Proof.
  intros Hempty. cbv zeta.
  assert (item_ok (redis (run handle rs w0))) as Hok.
  { apply (run_invariant (fun w => item_ok (redis w)) handle (fun _ => True)).
    - intros r flt w' _. apply handle_item_ok.
    - by apply Forall_true.
    - rewrite Hempty. intros s text. by rewrite lookup_empty. }
  split; [done|]. revert Hok. generalize (run handle rs w0) as w.
  intros w Hok Hrt movieId flt doc.
  destruct (flt (RedisGet (movie_key movieId))) as [e|] eqn:Hg.
  { by step_handler. }
  destruct (truthy (redis w !! movie_key movieId)) as [s|] eqn:Ht.
  - apply truthy_Some in Ht as [Hs Hne].
    destruct (Hok movieId s Hs) as (i & m & Hi & Hm & ->).
    rewrite (get_movie_hit movieId (JSON_stringify (simple_json (simplifyMovie m)))
               (simple_json (simplifyMovie m)) flt w Hg Hs Hne (Hrt _)).
    intros [= <-]. exists i. by rewrite id_of_projection, Hm.
  - destruct (ObjectId movieId) as [i|] eqn:Hi; [|by step_handler].
    destruct (flt (MongoFindOne i)) as [e|] eqn:Hf; [by step_handler|].
    destruct (findOne i (db w)) as [m|] eqn:Hm.
    + destruct (get_movie_miss movieId i m flt w) as (w' & -> & _); try done.
      intros [= <-]. exists i. split; [done|].
      by rewrite id_of_projection, (findOne_has_id i (db w) m).
    + by rewrite (get_movie_absent movieId i flt w).
Qed.

End Repetition.

(** ** The error middleware *)

Section ErrorMiddleware.
Context `{Platform}.
Import RedisServer.

(** X18.  Where a request ends in the error middleware.  A cache read
    failure in the list handler of a caching variant, or in the get-by-id
    handler of redisServer.js, is rendered by the error handler: the view
    is error, the status is the error's own when it has a non-zero one and
    500 otherwise, the message is handed to the view, and the error object
    itself only in the development environment.  The catch-all behind the
    router is rendered the same way with status 404. *)
Theorem failed_cache_read_is_rendered
    (env : string) (flt : faults) (w : world) (err : jserror) (movieId : string) :
  flt (RedisGet "movies") = Some err ->
  flt (RedisGet (movie_key movieId)) = Some err ->
  Forall (fun h : handler => error_page env (h flt w).1 = Some (render_error env err))
         [Part000.get_movies; RedisServer.get_movies; get_movie movieId]
  /\ p_view (render_error env err) = "error"
  /\ (forall n, estatus err = Some (S n) -> p_status (render_error env err) = S n)
  /\ (estatus err = None \/ estatus err = Some 0 ->
      p_status (render_error env err) = 500)
  /\ locals_message (render_error env err) = message err
  /\ (env = "development" -> locals_error (render_error env err) = Some err)
  /\ (env <> "development" -> locals_error (render_error env err) = None)
  /\ p_status (render_error env NotFound) = 404.
Proof.
  intros Hlist Hitem.
  split; [|split; [|split; [|split; [|split; [|split; [|split]]]]]].
  - repeat apply Forall_cons_2; try apply Forall_nil_2; by step_handler.
  - reflexivity.
  - intros n Hn. cbn. by rewrite Hn.
  - intros [Hnone | Hzero]; cbn; [by rewrite Hnone | by rewrite Hzero].
  - reflexivity.
  - intros ->. reflexivity.
  - intros Henv. cbn. by apply String.eqb_neq in Henv as ->.
  - reflexivity.
Qed.

End ErrorMiddleware.

(** * The further properties on the reference platform *)

Section MoreExamples.
Import Reference ReferenceFacts Scenarios.
#[local] Existing Instance platform.

Lemma blacksmith_accepted : ObjectId blacksmith_id = Some blacksmith_id.
Proof. reflexivity. Qed.

(** ** X3 *)

Lemma only_named_keys_change_witness :
  (RedisServer.movie_key blacksmith_ID
     ∉ touched (PatchMovie blacksmith_id (Some (JStr "Anvil"))))
  /\ redis (RedisServer.handle (PatchMovie blacksmith_id (Some (JStr "Anvil")))
             no_faults w_READ).2
     !! RedisServer.movie_key blacksmith_ID
     = redis w_READ !! RedisServer.movie_key blacksmith_ID.
Proof.
  assert (RedisServer.movie_key blacksmith_ID
            ∉ touched (PatchMovie blacksmith_id (Some (JStr "Anvil")))) as Hk.
  { cbn [touched]. rewrite !not_elem_of_cons.
    split; [|split]; [discriminate | discriminate | apply not_elem_of_nil]. }
  split; [exact Hk|].
  exact (proj1 (only_named_keys_change
                  (PatchMovie blacksmith_id (Some (JStr "Anvil")))
                  no_faults w_READ (RedisServer.movie_key blacksmith_ID)) Hk).
Defined.

(** ** X5 *)

Lemma store_failure_on_mutation_witness :
  store_down (MongoUpdateOne blacksmith_id (JStr "Anvil")) = Some ETIMEDOUT
  /\ RedisServer.patch_movie blacksmith_id (Some (JStr "Anvil")) store_down w_read
     = (Response 500 (error_body ETIMEDOUT),
        logged [MongoUpdateOne blacksmith_id (JStr "Anvil")] w_read)
  /\ Part000.delete_movie blacksmith_id store_down w_read
     = (Response 500 (error_body ETIMEDOUT),
        logged [MongoDeleteOne blacksmith_id] w_read).
Proof.
  split; [reflexivity|].
  destruct (store_failure_on_mutation (H := platform) blacksmith_id blacksmith_id
              (Some (JStr "Anvil")) store_down w_read ETIMEDOUT blacksmith_accepted)
    as [Hpatch Hdelete].
  split.
  - pose proof (Hpatch eq_refl) as Hall.
    do 2 apply Forall_cons in Hall as [_ Hall].
    apply Forall_cons in Hall as [Hredis _]. exact Hredis.
  - pose proof (Hdelete eq_refl) as Hall.
    apply Forall_cons in Hall as [_ Hall].
    apply Forall_cons in Hall as [Hpart _]. exact Hpart.
Defined.

(** ** X6 *)

Lemma store_failure_on_plain_read_witness :
  Server.get_movies store_down w0
  = (Response 500 (error_body ETIMEDOUT), logged [MongoFind 10] w0)
  /\ Part000.get_movie blacksmith_id store_down w0
     = (Response 500 (error_body ETIMEDOUT), logged [MongoFindOne blacksmith_id] w0).
Proof.
  destruct (store_failure_on_plain_read (H := platform) blacksmith_id blacksmith_id
              store_down w0 ETIMEDOUT blacksmith_accepted) as [Hlist Hitem].
  split; [exact (Hlist eq_refl) | exact (proj2 (Hitem eq_refl))].
Defined.

(** ** X7 *)

Lemma store_failure_escapes_callback_witness :
  (RedisServer.get_movies store_down w0).1 = Unhandled ETIMEDOUT
  /\ served (RedisServer.get_movies store_down w0).1 = None
  /\ (RedisServer.get_movie blacksmith_id store_down w0).1 = Unhandled ETIMEDOUT.
Proof.
  destruct (store_failure_escapes_callback store_down w0 ETIMEDOUT) as [Hlist Hitem].
  pose proof (Hlist eq_refl eq_refl eq_refl) as Hall.
  apply Forall_cons in Hall as [_ Hall].
  apply Forall_cons in Hall as [[Hrun Hserved] _].
  destruct (Hitem blacksmith_id blacksmith_id eq_refl eq_refl blacksmith_accepted
              eq_refl) as [Hrun' _].
  split; [by rewrite Hrun|]. split; [exact Hserved | by rewrite Hrun'].
Defined.

(** ** X8 *)

Lemma update_applied_but_answered_500_witness :
  (RedisServer.patch_movie blacksmith_id (Some (JStr "Anvil")) reread_fails w_read).1
  = Response 500 (error_body ETIMEDOUT)
  /\ findOne blacksmith_id
       (db (RedisServer.patch_movie blacksmith_id (Some (JStr "Anvil"))
              reread_fails w_read).2)
     = Some (set_title (JStr "Anvil") blacksmith)
  /\ redis (RedisServer.patch_movie blacksmith_id (Some (JStr "Anvil"))
              reread_fails w_read).2
     = redis w_read.
Proof.
  assert (findOne blacksmith_id (db w_read) = Some blacksmith) as Hfound
    by reflexivity.
  destruct (update_applied_but_answered_500 (H := platform)
              blacksmith_id blacksmith_id blacksmith (Some (JStr "Anvil"))
              reread_fails w_read ETIMEDOUT blacksmith_accepted Hfound
              eq_refl eq_refl) as (Ho & Hdb & Hr & _).
  split; [exact Ho|]. split; [exact Hdb | exact Hr].
Defined.

(** ** X9 *)

Lemma corrupt_entry_is_never_repaired_witness :
  JSON_parse "[{oops" = None
  /\ (RedisServer.get_movies no_faults w_corrupt).1 = Unhandled Reference.SyntaxError
  /\ redis (RedisServer.get_movies no_faults w_corrupt).2 = redis w_corrupt
  /\ (RedisServer.get_movies no_faults
        (RedisServer.get_movies no_faults w_corrupt).2).1
     = Unhandled Reference.SyntaxError.
Proof.
  split; [reflexivity|].
  assert ("[{oops" <> EmptyString) as Hne by discriminate.
  destruct (corrupt_entry_is_never_repaired no_faults w_corrupt "movies" "[{oops"
              eq_refl eq_refl Hne eq_refl RedisServer.get_movies)
    as (Ho & _ & Hr & _ & Hagain).
  - left. split; [reflexivity|].
    apply list_elem_of_further, list_elem_of_here.
  - split; [exact Ho|]. split; [exact Hr | exact Hagain].
Defined.

(** ** X10 *)

Lemma not_found_is_not_cached_witness :
  (RedisServer.get_movie unknown_id no_faults w_read).1
  = Response 404 (BText "Not found")
  /\ redis (RedisServer.get_movie unknown_id no_faults w_read).2 = redis w_read
  /\ (RedisServer.get_movie unknown_id set_fails
        (RedisServer.get_movie unknown_id no_faults w_read).2).1
     = Response 404 (BText "Not found").
Proof.
  assert (ObjectId unknown_id = Some unknown_id) as Hid by reflexivity.
  assert (findOne unknown_id (db w_read) = None) as Hnone by reflexivity.
  assert (truthy (redis w_read !! RedisServer.movie_key unknown_id) = None) as Hmiss
    by reflexivity.
  destruct (not_found_is_not_cached (H := platform) unknown_id unknown_id
              no_faults set_fails w_read Hid Hnone Hmiss
              eq_refl eq_refl eq_refl eq_refl) as (H1 & H2 & H3 & _).
  split; [exact H1|]. split; [exact H2 | exact H3].
Defined.

(** ** X11 *)

Lemma unmatched_mutation_and_the_cache_witness :
  redis (RedisServer.patch_movie unknown_id (Some (JStr "Anvil")) no_faults w_listed).2
  = redis w_listed
  /\ redis (Part000.patch_movie unknown_id (Some (JStr "Anvil")) no_faults w_listed).2
     = delete "movies" (redis w_listed)
  /\ redis (RedisServer.delete_movie unknown_id no_faults w_listed).2
     = delete "movies" (delete (RedisServer.movie_key unknown_id) (redis w_listed)).
Proof.
  assert (ObjectId unknown_id = Some unknown_id) as Hid by reflexivity.
  assert (findOne unknown_id (db w_listed) = None) as Hnone by reflexivity.
  destruct (unmatched_mutation_and_the_cache (H := platform) unknown_id unknown_id
              (Some (JStr "Anvil")) no_faults w_listed Hid Hnone (fun _ => eq_refl))
    as [Hpatch Hdelete].
  destruct (Hpatch eq_refl) as (_ & Hr & Hr').
  destruct (Hdelete eq_refl) as (Hr'' & _).
  split; [exact Hr|]. split; [exact Hr' | exact Hr''].
Defined.

(** ** X13 *)

Lemma list_is_read_through_witness :
  let r1 := RedisServer.get_movies no_faults w0 in
  let r2 := RedisServer.get_movies set_fails r1.2 in
  r1.1 = Response 200
           (BJson (JArr [blacksmith_projection;
                         JObj [("id", JStr robbery_id);
                               ("title", JStr "The Great Train Robbery")]]))
  /\ r2.1 = r1.1
  /\ filter is_mongo (since r1.2 r2.2) = [].
Proof.
  pose proof (list_is_read_through no_faults set_fails w0
                reference_roundtrip reference_nonempty
                eq_refl eq_refl eq_refl (fun _ => eq_refl) eq_refl) as Hall.
  apply Forall_cons in Hall as [_ Hall].
  apply Forall_cons in Hall as [(H1 & H2 & H3 & _) _].
  split; [exact H1|]. split; [exact H2 | exact H3].
Defined.

(** ** X14 *)

Lemma list_is_fresh_after_mutation_witness :
  is_Some (redis w_listed !! "movies")
  /\ (RedisServer.get_movies no_faults
        (RedisServer.delete_movie blacksmith_id set_fails w_listed).2).1
     = Response 200
         (BJson (JArr [JObj [("id", JStr robbery_id);
                             ("title", JStr "The Great Train Robbery")]]))
  /\ (Part000.get_movies no_faults
        (Part000.patch_movie blacksmith_id (Some (JStr "Anvil")) no_faults w_listed).2).1
     = Response 200
         (BJson (JArr [movie_json (set_title (JStr "Anvil") blacksmith);
                       movie_json robbery])).
Proof.
  split; [by eexists|].
  destruct (list_is_fresh_after_mutation (H := platform) blacksmith_id blacksmith_id
              set_fails no_faults w_listed blacksmith_accepted eq_refl eq_refl eq_refl)
    as [Hdelete _].
  destruct (list_is_fresh_after_mutation (H := platform) blacksmith_id blacksmith_id
              no_faults no_faults w_listed blacksmith_accepted eq_refl eq_refl eq_refl)
    as [_ Hpatch].
  split.
  - exact (proj2 (Hdelete eq_refl)).
  - exact (proj1 (Hpatch (Some (JStr "Anvil")) eq_refl)).
Defined.

(** ** X15 *)

Lemma delete_is_idempotent_witness :
  let r1 := RedisServer.delete_movie blacksmith_id del_fails w_read in
  let r2 := RedisServer.delete_movie blacksmith_id no_faults r1.2 in
  r1.1 = Response 200 (BJson (DeleteResult_json {| deletedCount := 1 |}))
  /\ r2.1 = Response 200 (BJson (DeleteResult_json {| deletedCount := 0 |}))
  /\ db r2.2 = db r1.2.
Proof.
  assert (unique_ids (db w_read)) as Huniq by exact unique_ids_w0.
  pose proof (delete_is_idempotent (H := platform) blacksmith_id blacksmith_id
                del_fails no_faults w_read blacksmith_accepted Huniq eq_refl eq_refl)
    as Hall.
  do 2 apply Forall_cons in Hall as [_ Hall].
  apply Forall_cons in Hall as [[H2 Hdb] _].
  split; [reflexivity|]. split; [exact H2 | exact Hdb].
Defined.

(** ** X16 *)

Lemma update_is_idempotent_witness :
  let r1 := Part000.patch_movie blacksmith_id (Some (JStr "Anvil")) no_faults w0 in
  let r2 := Part000.patch_movie blacksmith_id (Some (JStr "Anvil")) redis_down r1.2 in
  r1.1 = Response 200
           (BJson (UpdateResult_json {| matchedCount := 1; modifiedCount := 1 |}))
  /\ r2.1 = Response 200
             (BJson (UpdateResult_json {| matchedCount := 1; modifiedCount := 0 |}))
  /\ db r2.2 = db r1.2.
Proof.
  assert (findOne blacksmith_id (db w0) = Some blacksmith) as Hfound by reflexivity.
  pose proof (update_is_idempotent (H := platform) blacksmith_id blacksmith_id
                blacksmith (Some (JStr "Anvil")) no_faults redis_down w0
                blacksmith_accepted Hfound eq_refl eq_refl eq_refl eq_refl) as Hall.
  apply Forall_cons in Hall as [_ Hall].
  apply Forall_cons in Hall as [[H2 Hdb] _].
  split; [reflexivity|]. split; [exact H2 | exact Hdb].
Defined.

(** ** X17 *)

Lemma item_entries_match_their_key_witness :
  redis w0 = ∅
  /\ item_ok (redis (run RedisServer.handle traffic w0))
  /\ is_Some (redis (run RedisServer.handle traffic w0)
              !! RedisServer.movie_key blacksmith_id).
Proof.
  split; [reflexivity|]. split.
  - exact (proj1 (item_entries_match_their_key w0 traffic eq_refl)).
  - by eexists.
Defined.

(** ** X18 *)

Lemma failed_cache_read_is_rendered_witness :
  error_page "production" (RedisServer.get_movie blacksmith_id redis_down w0).1
  = Some {| p_status := 500; p_view := "error";
            locals_message := "connect ECONNREFUSED 127.0.0.1:6379";
            locals_error := None |}.
Proof.
  destruct (failed_cache_read_is_rendered "production" redis_down w0 ECONNREFUSED
              blacksmith_id eq_refl eq_refl) as [Hall _].
  do 2 apply Forall_cons in Hall as [_ Hall].
  apply Forall_cons in Hall as [Hitem _]. exact Hitem.
Defined.

End MoreExamples.
